(** * ldtp: a TCP file server and its downloader client

    A shallow embedding of [Server/server.py] and [Client/client.py].

    Conventions of the embedding.
    - A Python [str] is a [string]; Python [bytes] are a [list byte].  Text
      that crosses the wire is ASCII, where [encode('utf-8')] and
      [decode('utf-8')] are [list_byte_of_string] and [string_of_list_byte].
    - [os.path] is an interface ([OsPath]): the server is written against
      it and its instance is [posixpath] (CPython's Lib/posixpath.py) with
      the current working directory as an explicit argument.
    - The file system is what the operating system answers for a path string.
    - A socket is the script of what its successive [recv] calls return, and
      what was passed to its successive [sendall] calls.
    - Exceptions are explicit results. *)

From Stdlib Require Import ZArith NArith Ascii String Strings.Byte List Lia.
From stdpp Require Import base option list strings gmap pretty sorting.
From Equations Require Import Equations.

Open Scope string_scope.
Open Scope list_scope.

(** ** Python built-ins used by both programs *)

Module Py.

(** The line feed, ['\n']. *)
Definition LF : ascii := "010"%char.
Definition nl : string := String LF "".

(** [s.encode('utf-8')] for ASCII text. *)
Definition encode (s : string) : list byte := list_byte_of_string s.

(** [s.startswith(p)] *)
Definition startswith (s p : string) : bool := String.prefix p s.

(** [s.endswith(p)] *)
Definition endswith (s p : string) : bool :=
  (String.length p <=? String.length s)%nat
  && String.eqb (String.substring (String.length s - String.length p) (String.length p) s) p.

(** [s[n:]] *)
Definition str_from (n : nat) (s : string) : string :=
  String.substring n (String.length s - n) s.

(** [s.split(c)] for a one-character separator. *)
Fixpoint split (c : ascii) (s : string) : list string :=
  match s with
  | "" => [""]
  | String a s' =>
      if Ascii.eqb a c then "" :: split c s'
      else match split c s' with
           | [] => [String a ""]
           | w :: ws => String a w :: ws
           end
  end.

(** [c.join(l)] *)
Fixpoint join (c : string) (l : list string) : string :=
  match l with
  | [] => ""
  | [w] => w
  | w :: ws => w +:+ c +:+ join c ws
  end.

(** [s.replace(a, b)] for one-character [a] and [b]. *)
Fixpoint replace_char (a b : ascii) (s : string) : string :=
  match s with
  | "" => ""
  | String x s' => String (if Ascii.eqb x a then b else x) (replace_char a b s')
  end.

(** [s.replace('//', '/')]: non-overlapping occurrences, left to right. *)
Fixpoint replace_dslash (s : string) : string :=
  match s with
  | String "/" (String "/" s') => String "/" (replace_dslash s')
  | String x s' => String x (replace_dslash s')
  | "" => ""
  end.

(** A value together with the equation that names it, for the loops that
    branch on what a call returned. *)
Definition inspect {A} (a : A) : {b | a = b} := exist _ a eq_refl.

(** [str(n)] for a non-negative integer. *)
Definition str_of_N (n : N) : string := pretty n.

End Py.

(** ** [os.path] *)

(** The part of [os] the server uses; which module stands behind it depends
    on the platform. *)
Class OsPath := {
  os_sep : ascii;                         (* os.sep *)
  os_path_join : string → string → string;   (* os.path.join(a, b) *)
  os_path_normpath : string → string;        (* os.path.normpath *)
  os_path_abspath : string → string;         (* os.path.abspath *)
}.

Module PosixPath.
Import Py.

Definition sep : ascii := "/"%char.

(** [posixpath.join(a, b)] *)
Definition join (a b : string) : string :=
  if startswith b "/" then b
  else if String.eqb a "" || endswith a "/" then a +:+ b
  else a +:+ "/" +:+ b.

(** The number of leading slashes [normpath] keeps: POSIX allows one or two
    initial slashes, and treats three or more as one. *)
Definition initial_slashes (path : string) : nat :=
  if startswith path "/" then
    if startswith path "//" && negb (startswith path "///") then 2 else 1
  else 0.

(** One turn of the loop over [comps] in [normpath]. *)
Definition norm_step (init : nat) (new_comps : list string) (comp : string)
  : list string :=
  if String.eqb comp "" || String.eqb comp "." then new_comps
  else if negb (String.eqb comp "..")
          || ((init =? 0)%nat && bool_decide (new_comps = []))
          || (bool_decide (new_comps ≠ []) && bool_decide (last new_comps = Some ".."))
       then new_comps ++ [comp]
  else if bool_decide (new_comps ≠ []) then removelast new_comps
  else new_comps.

(** [posixpath.normpath(path)] *)
Definition normpath (path : string) : string :=
  if String.eqb path "" then "."
  else
    let init := initial_slashes path in
    let comps := foldl (norm_step init) [] (split sep path) in
    let path := Py.join "/" comps in
    let path := (if (init =? 2)%nat then "//" else if (init =? 1)%nat then "/" else "") +:+ path in
    if String.eqb path "" then "." else path.

(** [posixpath.abspath(path)] with [os.getcwd()] returning [cwd]. *)
Definition abspath (cwd path : string) : string :=
  normpath (if startswith path "/" then path else join cwd path).

(** [os.path] on a POSIX system whose current directory is [cwd]. *)
Definition os_path (cwd : string) : OsPath :=
  {| os_sep := sep;
     os_path_join := join;
     os_path_normpath := normpath;
     os_path_abspath := abspath cwd |}.

End PosixPath.

(** ** The server, [Server/server.py] *)

Module Server.
Import Py.

(** Exceptions the handler can meet.  [OSError] stands for the operating
    system errors that are neither of its two subclasses named here. *)
Inductive exn :=
| PermissionError | FileNotFoundError | OSError | KeyError | TypeError
| AttributeError | UnicodeDecodeError.

Inductive result (A : Type) :=
| Ok (a : A)
| Raise (e : exn).
Arguments Ok {A} a.
Arguments Raise {A} e.

(** *** The file system as the operating system answers for a path *)

Inductive node :=
| File (content : list byte)    (* a regular file that [open] opens *)
| Unreadable (content : list byte)  (* a regular file that [open] refuses *)
| Dir (names : list string)     (* a directory and what [os.listdir] returns *)
| DirDenied                     (* a directory whose listing is refused *)
| DirFails                      (* a directory whose listing fails otherwise *)
| StatDenied                    (* an entry whose [stat] is refused *)
| StatFails.                    (* an entry whose [stat] fails otherwise:
                                   ELOOP, ENAMETOOLONG, EIO, ... *)

Definition filesystem := string → option node.

(** [os.path.isdir] and [os.path.isfile] answer [False] when [stat] fails. *)
Definition isdir (fs : filesystem) (p : string) : bool :=
  match fs p with
  | Some (Dir _) | Some DirDenied | Some DirFails => true
  | _ => false
  end.

Definition isfile (fs : filesystem) (p : string) : bool :=
  match fs p with Some (File _) | Some (Unreadable _) => true | _ => false end.

(** [os.path.getsize]; the server never asks it for a directory. *)
Definition getsize (fs : filesystem) (p : string) : result N :=
  match fs p with
  | Some (File c) | Some (Unreadable c) => Ok (N.of_nat (length c))
  | Some (Dir _) | Some DirDenied | Some DirFails => Ok 0%N
  | Some StatDenied => Raise PermissionError
  | Some StatFails => Raise OSError
  | None => Raise FileNotFoundError
  end.

(** [os.listdir]; the server asks it only where [os.path.isdir] held. *)
Definition listdir (fs : filesystem) (p : string) : result (list string) :=
  match fs p with
  | Some (Dir names) => Ok names
  | Some DirDenied | Some StatDenied => Raise PermissionError
  | Some DirFails | Some StatFails => Raise OSError
  | _ => Raise FileNotFoundError
  end.

(** *** [human_readable_size]

    [size] is an [int] on entry and a [float] after the first [size /= 1024].
    That first division of two [int]s is correctly rounded: its result is
    the double nearest to the quotient, ties to even; as 1024 is a power of
    two, this is [to_float size] divided by 1024.  Dividing a double by 1024
    is exact.  So the value at each turn is the rational [num / den] with
    [num = to_float size] and [den] a power of 1024, and ["{:.1f}"] rounds
    that exact value to one decimal, ties to even.  (An [int] of [2^1024]
    or more has no double; no file is that large.) *)

(** The double nearest to the integer [n], ties to even: [n] itself below
    [2^53], and [n] rounded to its 53 leading bits from there on. *)
Definition to_float (n : N) : N :=
  if (n <? 2 ^ 53)%N then n
  else
    let shift := (N.log2 n - 52)%N in
    let q := N.shiftr n shift in
    let r := (n mod 2 ^ shift)%N in
    let half := (2 ^ (shift - 1))%N in
    let q' := if (r <? half)%N then q
              else if (half <? r)%N then (q + 1)%N
              else if N.even q then q else (q + 1)%N in
    N.shiftl q' shift.

Definition round_half_even (a b : N) : N :=
  let q := (a / b)%N in
  let r := (a mod b)%N in
  if (2 * r <? b)%N then q
  else if (b <? 2 * r)%N then (q + 1)%N
  else if N.even q then q else (q + 1)%N.

(** [f"{num/den:.1f}"] *)
Definition fmt_1f (num den : N) : string :=
  let t := round_half_even (10 * num) den in
  str_of_N (t / 10) +:+ "." +:+ str_of_N (t mod 10).

Fixpoint hrs_loop (units : list string) (num den : N) : string :=
  match units with
  | [] => fmt_1f num den +:+ " PiB"
  | unit :: units' =>
      if (num <? 1024 * den)%N then fmt_1f num den +:+ " " +:+ unit +:+ "B"
      else hrs_loop units' num (den * 1024)
  end.

Definition human_readable_size (size : N) : string :=
  hrs_loop [""; "Ki"; "Mi"; "Gi"; "Ti"] (to_float size) 1.

(** *** Path resolution *)

Section WithConfig.

(** [ROOT_DIR] is the configured shared folder. *)
Context {os_path : OsPath}.
Variable ROOT_DIR : string.

(** [safe_join(base, path)]; [None] is Python's [None]. *)
Definition safe_join (base path : string) : option string :=
  let full_path :=
    os_path_normpath (os_path_join base (replace_char "/" os_sep path)) in
  if negb (startswith (os_path_abspath full_path) (os_path_abspath base))
  then None
  else Some full_path.

(** [not full_path] for the value [safe_join] returned. *)
Definition falsy (full_path : option string) : bool :=
  match full_path with
  | None | Some "" => true
  | Some _ => false
  end.

(** *** Directory listing *)

Record entry := { name : string; size : string; is_dir : bool }.

Inductive response :=
| RespError (error : string)        (* {"error": ...} *)
| RespListing (listing : list entry).  (* {"listing": [...]} *)

(** Python's [sorted] on strings: the order is total and antisymmetric, so
    the sorted list is unique whatever the sorting algorithm. *)
Definition str_le (a b : string) : Prop := String.leb a b = true.

#[export] Instance str_le_dec a b : Decision (str_le a b).
Proof. unfold str_le. apply _. Defined.

Definition sorted (l : list string) : list string := merge_sort str_le l.

(** The body of the [for name in sorted(...)] loop. *)
Definition list_item (fs : filesystem) (full_path name : string) : result entry :=
  let item_path := os_path_join full_path name in
  if isdir fs item_path then
    Ok {| name := name +:+ "/"; size := ""; is_dir := true |}
  else
    match getsize fs item_path with
    | Ok n => Ok {| name := name; size := human_readable_size n; is_dir := false |}
    | Raise e => Raise e
    end.

Fixpoint list_items (fs : filesystem) (full_path : string) (names : list string)
  (items : list entry) : result (list entry) :=
  match names with
  | [] => Ok items
  | name :: names' =>
      match list_item fs full_path name with
      | Ok e => list_items fs full_path names' (items ++ [e])
      | Raise e => Raise e
      end
  end.

(** [get_listing(path)]; an exception other than [PermissionError] leaves
    the function. *)
Definition get_listing (fs : filesystem) (path : string) : result response :=
  let full_path := safe_join ROOT_DIR path in
  if falsy full_path then Ok (RespError "Access denied")
  else
    let full_path := default "" full_path in
    if negb (isdir fs full_path) then Ok (RespError "Path not found")
    else
      match listdir fs full_path with
      | Raise PermissionError => Ok (RespError "Permission denied")
      | Raise e => Raise e
      | Ok names =>
          match list_items fs full_path (sorted names) [] with
          | Ok items => Ok (RespListing items)
          | Raise PermissionError => Ok (RespError "Permission denied")
          | Raise e => Raise e
          end
      end.

(** *** The connection handler *)

(** What [json.loads] returns; the handler never looks inside a number. *)
#[local] Set Warnings "-register-all".
Inductive json :=
| JNull
| JBool (b : bool)
| JNum (n : Z)
| JStr (s : string)
| JArr (l : list json)
| JObj (items : list (string * json)).

(** One command frame as the handler sees it after
    [json.loads(data.decode('utf-8').strip())]. *)
Inductive frame :=
| BadUtf8                 (* [decode] raises UnicodeDecodeError *)
| BadJson                 (* [json.loads] raises JSONDecodeError *)
| Cmd (cmd : json).

Fixpoint assoc (k : string) (items : list (string * json)) : option json :=
  match items with
  | [] => None
  | (k', v) :: items' => if String.eqb k k' then Some v else assoc k items'
  end.

(** [cmd['type']] *)
Definition subscript (cmd : json) (k : string) : result json :=
  match cmd with
  | JObj items => match assoc k items with Some v => Ok v | None => Raise KeyError end
  | _ => Raise TypeError
  end.

(** [cmd.get(k, dflt)], reached only when [cmd] is a dict. *)
Definition get (cmd : json) (k : string) (dflt : string) : result json :=
  match cmd with
  | JObj items => Ok (default (JStr dflt) (assoc k items))
  | _ => Raise AttributeError
  end.

(** [v == s] for a string literal [s]. *)
Definition eq_str (v : json) (s : string) : bool :=
  match v with
  | JStr s' => String.eqb s' s
  | _ => false
  end.

(** A value passed where the code calls [path.replace]. *)
Definition as_str (v : json) : result string :=
  match v with
  | JStr s => Ok s
  | _ => Raise AttributeError
  end.

(** What the handler passes to [conn.sendall]. *)
Inductive sent :=
| Bytes (b : list byte)
| Json (r : response).     (* json.dumps(response).encode('utf-8') + b'\n' *)

(** How the handler leaves its loop; [conn.close()] follows in both cases. *)
Inductive ending :=
| PeerClosed              (* [recv] returned [b''] *)
| Crashed (e : exn).      (* caught by [except Exception] *)

(** The [while True: chunk = f.read(n) ... conn.sendall(chunk)] loop over
    the bytes the file still holds: the chunks handed to [sendall]. *)
Equations? read_chunks (n : nat) (f : list byte) : list (list byte)
  by wf (length f) lt :=
  read_chunks n f with inspect (take n f) := {
    | exist _ [] _ => [];
    | exist _ (b :: chunk) _ => (b :: chunk) :: read_chunks n (drop n f) }.
Proof.
  rewrite length_drop.
  destruct n as [|n]; [discriminate|].
  destruct f as [|x f]; [discriminate|].
  simpl. lia.
Qed.

#[local] Set Warnings "-abstract-large-number".
Definition READ_SIZE : nat := 65536.

Definition END_MARKER : list byte := encode ("END" +:+ nl).

(** The DOWNLOAD branch after the path was accepted, when no exception
    leaves it: everything it passes to [sendall]. *)
Definition send_download (fs : filesystem) (full_path : string) : result (list sent) :=
  match getsize fs full_path with
  | Raise e => Raise e
  | Ok file_size =>
      let header := Bytes (encode ("SIZE:" +:+ str_of_N file_size +:+ nl)) in
      match fs full_path with
      | Some (File content) =>
          Ok (header :: (Bytes <$> read_chunks READ_SIZE content) ++ [Bytes END_MARKER])
      | Some (Unreadable _) => Raise PermissionError    (* [open] raises *)
      | _ => Raise FileNotFoundError
      end
  end.

(** What that branch had passed to [sendall] when an exception leaves it:
    the header, once [os.path.getsize] has returned. *)
Definition sent_before_raise (fs : filesystem) (full_path : string) : list sent :=
  match getsize fs full_path with
  | Raise _ => []
  | Ok file_size => [Bytes (encode ("SIZE:" +:+ str_of_N file_size +:+ nl))]
  end.

Definition ERR_INVALID_JSON : list byte := encode ("ERROR: Invalid JSON" +:+ nl).
Definition ERR_NOT_FOUND : list byte :=
  encode ("ERROR: File not found or access denied" +:+ nl).

(** One turn of the [while True] loop for a frame that was read: what is
    sent, and the exception if one leaves the loop. *)
Definition handle_frame (fs : filesystem) (fr : frame) : list sent * option exn :=
  match fr with
  | BadUtf8 => ([], Some UnicodeDecodeError)
  | BadJson => ([Bytes ERR_INVALID_JSON], None)
  | Cmd cmd =>
      match subscript cmd "type" with
      | Raise e => ([], Some e)
      | Ok ty =>
          if eq_str ty "LIST" then
            match get cmd "path" "/" with
            | Raise e => ([], Some e)
            | Ok path =>
                match as_str path with
                | Raise e => ([], Some e)
                | Ok path =>
                    match get_listing fs path with
                    | Ok response => ([Json response], None)
                    | Raise e => ([], Some e)
                    end
                end
            end
          else if eq_str ty "DOWNLOAD" then
            match get cmd "path" "" with
            | Raise e => ([], Some e)
            | Ok file_path =>
                match as_str file_path with
                | Raise e => ([], Some e)
                | Ok file_path =>
                    let full_path := safe_join ROOT_DIR file_path in
                    if falsy full_path || negb (isfile fs (default "" full_path)) then
                      ([Bytes ERR_NOT_FOUND], None)
                    else
                      match send_download fs (default "" full_path) with
                      | Ok out => (out, None)
                      | Raise e => (sent_before_raise fs (default "" full_path), Some e)
                      end
                end
            end
          else ([], None)
      end
  end.

(** [handle_client]: the frames the peer sends before it closes. *)
Fixpoint handle_client (fs : filesystem) (frames : list frame) : list sent * ending :=
  match frames with
  | [] => ([], PeerClosed)
  | fr :: frames' =>
      match handle_frame fs fr with
      | (out, Some e) => (out, Crashed e)
      | (out, None) =>
          let '(out', fin) := handle_client fs frames' in (out ++ out', fin)
      end
  end.

End WithConfig.

End Server.

(** ** The downloader, [Client/client.py] *)

Module Client.
Import Py.

#[export] Instance byte_eq_dec : EqDecision byte := Byte.byte_eq_dec.

#[local] Set Warnings "-abstract-large-number".
Definition CHUNK_SIZE : nat := 65536.

Definition LF : byte := x0a.
Definition END_MARKER : list byte := encode ("END" +:+ nl).

(** *** The socket *)

(** What the network holds for the successive [recv] calls: a segment of
    bytes that arrived together ([Data []] is the peer's orderly shutdown),
    or a reset.  When nothing is left, [recv] does not return. *)
Inductive recv_event :=
| Data (segment : list byte)
| PeerReset.

Definition socket := list recv_event.

Inductive recv_result :=
| Chunk (chunk : list byte) (s' : socket)
| RecvRaises
| RecvBlocks.

(** [s.recv(bufsize)]: at most [bufsize] bytes of the first segment; what
    does not fit stays for the next call. *)
Definition recv (bufsize : nat) (s : socket) : recv_result :=
  match s with
  | [] => RecvBlocks
  | PeerReset :: _ => RecvRaises
  | Data segment :: s' =>
      if (length segment <=? bufsize)%nat then Chunk segment s'
      else Chunk (take bufsize segment) (Data (drop bufsize segment) :: s')
  end.

(** Termination measure of the receive loops. *)
Fixpoint weight (s : socket) : nat :=
  match s with
  | [] => 0
  | Data segment :: s' => S (length segment + weight s')
  | PeerReset :: s' => S (weight s')
  end.

(** A [recv] that returned data leaves a lighter socket. *)
Ltac recv_decreases :=
  match goal with
  | e : recv ?n ?s = Chunk (_ :: _) _ |- _ =>
      revert e; generalize n; intros bufsize e;
      destruct s as [|[segment|] s0]; [discriminate| |discriminate];
      unfold recv in e;
      destruct (length segment <=? bufsize)%nat;
      injection e as e <-; cbn [weight];
      [lia|];
      rewrite length_drop;
      destruct bufsize; [discriminate|];
      destruct segment; [discriminate|];
      cbn [length]; lia
  end.

(** *** The cancellation flag *)

(** [self.cancelled] is set by another thread and never cleared.  [None]:
    it is never set; [Some k]: the next [k] reads still see [False]. *)
Definition flag := option nat.

Definition read_cancelled (c : flag) : bool * flag :=
  match c with
  | None => (false, None)
  | Some 0 => (true, Some 0)
  | Some (S k) => (false, Some k)
  end.

(** *** Exceptions and calls into the GUI *)

Inductive exn :=
| ConnectionLost          (* Exception("Connection lost") *)
| InvalidResponse         (* Exception("Invalid response") *)
| ValueError              (* int() refused the size *)
| ConnectionResetError.   (* recv raised *)

Inductive gui_call :=
| UpdateProgress (downloaded total : Z)   (* gui.update_progress *)
| ShowError (title : string) (message : string + exn)  (* text, or str(e) *)
| ShowInfo (title : string)
| RemoveDownload.                         (* gui.remove_download *)

(** *** The header *)

Inductive header_result :=
| Header (header : list byte) (s' : socket)
| HeaderRaises (e : exn)
| HeaderBlocks.

(** [while b'\n' not in header: ...] *)
Equations? recv_header (s : socket) (header : list byte) : header_result
  by wf (weight s) lt :=
  recv_header s header with bool_decide (LF ∈ header) := {
    | true => Header header s;
    | false with inspect (recv 1024 s) := {
        | exist _ RecvBlocks _ => HeaderBlocks;
        | exist _ RecvRaises _ => HeaderRaises ConnectionResetError;
        | exist _ (Chunk [] _) _ => HeaderRaises ConnectionLost;
        | exist _ (Chunk (b :: chunk) s') _ => recv_header s' (header ++ b :: chunk) } }.
Proof. recv_decreases. Qed.

(** [header.split(b'\n')[0]] *)
Fixpoint first_line (header : list byte) : list byte :=
  match header with
  | [] => []
  | b :: header' => if bool_decide (b = LF) then [] else b :: first_line header'
  end.

(** [.decode('utf-8')] of ASCII bytes; [None] for any other input, which
    this model does not follow further. *)
Definition decode (b : list byte) : option string :=
  if forallb (λ x, (Byte.to_N x <? 128)%N) b then Some (string_of_list_byte b) else None.

(** [int(s)] on ASCII text: surrounding white space, a sign, decimal digits
    with single underscores between them.  For ASCII text the white space
    is C's: the characters 9 to 13 and the blank. *)
Definition is_space (c : ascii) : bool :=
  let n := nat_of_ascii c in
  ((9 <=? n) && (n <=? 13) || (n =? 32))%nat.

Definition is_digit (c : ascii) : bool :=
  let n := nat_of_ascii c in ((48 <=? n) && (n <=? 57))%nat.

Fixpoint lstrip (s : string) : string :=
  match s with
  | String c s' => if is_space c then lstrip s' else s
  | "" => ""
  end.

Definition strip (s : string) : string :=
  String.rev (lstrip (String.rev (lstrip s))).

Fixpoint digits (s : string) (acc : N) (after_digit : bool) : option N :=
  match s with
  | "" => if after_digit then Some acc else None
  | String c s' =>
      if is_digit c then digits s' (10 * acc + (N_of_ascii c - 48))%N true
      else if Ascii.eqb c "_" && after_digit then
        match s' with
        | "" => None
        | _ => digits s' acc false
        end
      else None
  end.

(** The number of decimal digits in [s]. *)
Fixpoint count_digits (s : string) : nat :=
  match s with
  | "" => 0
  | String c s' => (if is_digit c then 1 else 0) + count_digits s'
  end.

Inductive int_result :=
| Int (n : Z)
| IntValueError
| IntUnmodelled.   (* a number of more than 4300 digits, CPython's default
                      limit: ValueError from 3.11 on, the number before *)

(** A number that was read, if it is within the limit on digits. *)
Definition within_limit (s : string) (n : Z) : int_result :=
  if (4300 <? count_digits s)%nat then IntUnmodelled else Int n.

Definition int (s : string) : int_result :=
  match strip s with
  | String "-" s' => match digits s' 0 false with
                     | Some n => within_limit s' (- Z.of_N n)
                     | None => IntValueError
                     end
  | String "+" s' => match digits s' 0 false with
                     | Some n => within_limit s' (Z.of_N n)
                     | None => IntValueError
                     end
  | s' => match digits s' 0 false with
          | Some n => within_limit s' (Z.of_N n)
          | None => IntValueError
          end
  end.

(** *** The receive loop, lines 79-90 *)

Inductive loop_exit :=
| LoopEnds                (* the condition is false, or [break] *)
| LoopRaises (e : exn)
| LoopBlocks.

(** The downloader's fields and surroundings the loop changes. *)
Record loop_state := {
  cancel : flag;
  downloaded : Z;
  file : list byte;            (* written to [f] so far *)
  calls : list gui_call;       (* calls into the GUI so far, in order *)
}.

(** [chunk.endswith(b'END\n')] and [chunk[:-4]] *)
Definition strip_marker (chunk : list byte) : list byte :=
  if bool_decide (END_MARKER `suffix_of` chunk) then take (length chunk - 4) chunk
  else chunk.

Equations? receive_loop (total_size : Z) (s : socket) (st : loop_state)
  : loop_exit * loop_state by wf (weight s) lt :=
  receive_loop total_size s st with read_cancelled (cancel st) := {
    | (true, c') => (LoopEnds, {| cancel := c'; downloaded := downloaded st;
                                  file := file st; calls := calls st |});
    | (false, c') with (downloaded st <? total_size)%Z := {
        | false => (LoopEnds, {| cancel := c'; downloaded := downloaded st;
                                 file := file st; calls := calls st |});
        | true with inspect (recv CHUNK_SIZE s) := {
            | exist _ RecvBlocks _ =>
                (LoopBlocks, {| cancel := c'; downloaded := downloaded st;
                                file := file st; calls := calls st |});
            | exist _ RecvRaises _ =>
                (LoopRaises ConnectionResetError,
                 {| cancel := c'; downloaded := downloaded st;
                    file := file st; calls := calls st |});
            | exist _ (Chunk [] _) _ =>
                (LoopEnds, {| cancel := c'; downloaded := downloaded st;
                              file := file st; calls := calls st |});
            | exist _ (Chunk (b :: chunk0) s') _ =>
                let chunk := strip_marker (b :: chunk0) in
                let downloaded' := (downloaded st + Z.of_nat (length chunk))%Z in
                receive_loop total_size s'
                  {| cancel := c'; downloaded := downloaded';
                     file := file st ++ chunk;
                     calls := calls st ++ [UpdateProgress downloaded' total_size] |} } } }.
Proof. recv_decreases. Qed.

(** *** [Downloader._download] *)

Inductive outcome :=
| Completed               (* "Complete" is shown *)
| Cancelled               (* the cancel branch: the file is removed *)
| ServerError             (* an ERROR header: "Error" is shown *)
| Failed (e : exn)        (* an exception: "Download Failed" is shown *)
| Blocked                 (* a [recv] that never returns *)
| Unmodelled.             (* a header this model does not follow *)

Record run := {
  result : outcome;
  gui : list gui_call;            (* calls into the GUI, in order *)
  dest : option (list byte);      (* the file at [save_path]; [None]: absent *)
                                  (* while [result] is [Blocked] the file is
                                     open: what was written to it so far *)
  total : Z;                      (* self.total_size *)
  received : Z;                   (* self.downloaded *)
}.

(** The [except Exception] and [finally] clauses. *)
Definition raised (e : exn) (calls : list gui_call) (dest : option (list byte))
  (total received : Z) : run :=
  {| result := Failed e;
     gui := calls ++ [ShowError "Download Failed" (inr e); RemoveDownload];
     dest := dest; total := total; received := received |}.

(** Lines 78-101, once [self.total_size] is known, where [open] and
    [f.write] succeed and the calls into the GUI return. *)
Definition transfer (total_size : Z) (s : socket) (c : flag) : run :=
  (* open(self.save_path, 'wb') creates or truncates the file *)
  let '(exit, st) :=
    receive_loop total_size s
      {| cancel := c; downloaded := 0; file := []; calls := [] |} in
  (* leaving the [with] block closes the file *)
  let dest := Some (file st) in
  match exit with
  | LoopBlocks =>
      {| result := Blocked; gui := calls st; dest := dest;
         total := total_size; received := downloaded st |}
  | LoopRaises e => raised e (calls st) dest total_size (downloaded st)
  | LoopEnds =>
      let '(cancelled, _) := read_cancelled (cancel st) in
      if cancelled && bool_decide (is_Some dest) then
        {| result := Cancelled; gui := calls st ++ [RemoveDownload];
           dest := None; total := total_size; received := downloaded st |}
      else
        {| result := Completed;
           gui := calls st ++ [UpdateProgress total_size total_size;
                               ShowInfo "Complete"; RemoveDownload];
           dest := dest; total := total_size; received := downloaded st |}
  end.

(** [_download]: [dest0] is the file at [save_path] beforehand, [s] what the
    connection delivers after the command was sent, [c] the user's cancel. *)
Definition _download (dest0 : option (list byte)) (s : socket) (c : flag) : run :=
  match recv_header s [] with
  | HeaderBlocks =>
      {| result := Blocked; gui := []; dest := dest0; total := 0; received := 0 |}
  | HeaderRaises e => raised e [] dest0 0 0
  | Header header s' =>
      match decode (first_line header) with
      | None =>
          {| result := Unmodelled; gui := []; dest := dest0; total := 0; received := 0 |}
      | Some line =>
          if startswith line "ERROR" then
            {| result := ServerError;
               gui := [ShowError "Error" (inl (str_from 6 line));
                       RemoveDownload; RemoveDownload];
               dest := dest0; total := 0; received := 0 |}
          else if negb (startswith line "SIZE:") then raised InvalidResponse [] dest0 0 0
          else
            match int (str_from 5 line) with
            | IntUnmodelled =>
                {| result := Unmodelled; gui := []; dest := dest0;
                   total := 0; received := 0 |}
            | IntValueError => raised ValueError [] dest0 0 0
            | Int total_size => transfer total_size s' c
            end
      end
  end.

End Client.

(** ** The session registry of [ClientGUI] *)

Module Gui.
Import Py.

(** A [Downloader] object, as far as the GUI touches it. *)
Record Downloader := {
  file_path : string;
  save_path : string;
  cancelled : bool;
}.

(** The widgets [create_progress_ui] builds for one download: the frame,
    and what [update_progress] last put into its bar and labels. *)
Record widget := {
  title : string;
  shown : option (Z * Z);       (* downloaded, total *)
  destroyed : bool;             (* frame.destroy() *)
}.

(** Python objects have an identity: the two dicts hold references into
    the stores [objects] and [frames]. *)
Record ClientGUI := {
  current_path : string;
  downloaders : gmap string nat;       (* self.downloaders *)
  progress_widgets : gmap string nat;  (* self.progress_widgets *)
  objects : gmap nat Downloader;
  frames : gmap nat widget;
  started : list nat;                  (* downloader.start() *)
}.

(** The state [__init__] leaves. *)
Definition init : ClientGUI :=
  {| current_path := "/"; downloaders := ∅; progress_widgets := ∅;
     objects := ∅; frames := ∅; started := [] |}.

Definition cancel (d : Downloader) : Downloader :=
  {| file_path := file_path d; save_path := save_path d; cancelled := true |}.

Definition create_progress_ui (remote_path name : string) (g : ClientGUI) : ClientGUI :=
  let w := fresh (dom (frames g)) in
  {| current_path := current_path g;
     downloaders := downloaders g;
     progress_widgets := <[remote_path := w]> (progress_widgets g);
     objects := objects g;
     frames := <[w := {| title := name; shown := None; destroyed := false |}]> (frames g);
     started := started g |}.

(** [start_download]: [selection] is the selected row's name, if any, and
    [save] what the file dialog returned (empty when dismissed). *)
Definition start_download (selection : option string) (save : string)
  (g : ClientGUI) : ClientGUI :=
  match selection with
  | None => g
  | Some name =>
      let remote_path := replace_dslash (current_path g +:+ name) in
      if String.eqb save "" then g
      else
        let d := fresh (dom (objects g)) in
        let downloader :=
          {| file_path := remote_path; save_path := save; cancelled := false |} in
        let g1 :=
          {| current_path := current_path g;
             downloaders := <[remote_path := d]> (downloaders g);
             progress_widgets := progress_widgets g;
             objects := <[d := downloader]> (objects g);
             frames := frames g;
             started := started g |} in
        let g2 := create_progress_ui remote_path name g1 in
        {| current_path := current_path g2;
           downloaders := downloaders g2;
           progress_widgets := progress_widgets g2;
           objects := objects g2;
           frames := frames g2;
           started := started g2 ++ [d] |}
  end.

Definition update_progress (remote_path : string) (downloaded total : Z)
  (g : ClientGUI) : ClientGUI :=
  match progress_widgets g !! remote_path with
  | None => g
  | Some w =>
      {| current_path := current_path g;
         downloaders := downloaders g;
         progress_widgets := progress_widgets g;
         objects := objects g;
         frames := alter (λ x, {| title := title x; shown := Some (downloaded, total);
                                  destroyed := destroyed x |}) w (frames g);
         started := started g |}
  end.

Definition remove_download (remote_path : string) (g : ClientGUI) : ClientGUI :=
  let g1 :=
    match progress_widgets g !! remote_path with
    | None => g
    | Some w =>
        {| current_path := current_path g;
           downloaders := downloaders g;
           progress_widgets := delete remote_path (progress_widgets g);
           objects := objects g;
           frames := alter (λ x, {| title := title x; shown := shown x;
                                    destroyed := true |}) w (frames g);
           started := started g |}
    end in
  match downloaders g1 !! remote_path with
  | None => g1
  | Some _ =>
      {| current_path := current_path g1;
         downloaders := delete remote_path (downloaders g1);
         progress_widgets := progress_widgets g1;
         objects := objects g1;
         frames := frames g1;
         started := started g1 |}
  end.

Definition cancel_download (remote_path : string) (g : ClientGUI) : ClientGUI :=
  let g1 :=
    match downloaders g !! remote_path with
    | None => g
    | Some d =>
        {| current_path := current_path g;
           downloaders := downloaders g;
           progress_widgets := progress_widgets g;
           objects := alter cancel d (objects g);
           frames := frames g;
           started := started g |}
    end in
  remove_download remote_path g1.

(** *** Browsing: the paths [list_directory] is asked for *)

(** [s.rstrip('/')] *)
Fixpoint rstrip_slash (s : string) : string :=
  match s with
  | "" => ""
  | String c s' =>
      match rstrip_slash s' with
      | "" => if Ascii.eqb c "/" then "" else String c ""
      | r => String c r
      end
  end.

(** [s.rfind(c)], [-1] when [c] does not occur. *)
Fixpoint rfind (c : ascii) (s : string) : Z :=
  match s with
  | "" => -1
  | String a s' =>
      let r := rfind c s' in
      if (0 <=? r)%Z then (r + 1)%Z else if Ascii.eqb a c then 0%Z else (-1)%Z
  end.

(** [head == sep * len(head)] *)
Fixpoint all_sep (head : string) : bool :=
  match head with
  | "" => true
  | String a head' => Ascii.eqb a "/" && all_sep head'
  end.

(** [os.path.dirname(p)], as [posixpath] has it. *)
Definition dirname (p : string) : string :=
  let i := (rfind "/" p + 1)%Z in
  let head := String.substring 0 (Z.to_nat i) p in
  if negb (String.eqb head "") && negb (all_sep head) then rstrip_slash head
  else head.

(** The path [list_directory(path)] asks the server for and, when the
    server answers with a listing, stores in [self.current_path]. *)
Definition list_directory_path (path : string) : string :=
  rstrip_slash (replace_dslash path) +:+ "/".

(** [on_double_click] on the row [name]: the path it has listed, if the
    row is a directory. *)
Definition on_double_click_path (current_path name : string) : option string :=
  if endswith name "/" then
    Some (list_directory_path (current_path +:+ rstrip_slash name))
  else None.

(** [go_back]: the path it has listed, if any. *)
Definition go_back_path (current_path : string) : option string :=
  if negb (String.eqb current_path "/") then
    let new_path := dirname (rstrip_slash current_path) +:+ "/" in
    Some (list_directory_path (if String.eqb new_path "//" then "/" else new_path))
  else None.

(** What can reach the registry: the user's buttons and the calls the
    download threads make. *)
Inductive op :=
| StartDownload (selection : option string) (save : string)
| UpdateProgress (remote_path : string) (downloaded total : Z)
| CancelDownload (remote_path : string)
| RemoveDownload (remote_path : string)
| Browse (path : string).      (* list_directory sets self.current_path *)

(** One call into the GUI, taken as a whole.  The download threads call
    [update_progress] and [remove_download] while the Tk thread runs the
    handlers of the buttons, without a lock; what two calls do to each other
    when one runs in the middle of the other is not followed here. *)
Definition step (g : ClientGUI) (o : op) : ClientGUI :=
  match o with
  | StartDownload selection save => start_download selection save g
  | UpdateProgress p d t => update_progress p d t g
  | CancelDownload p => cancel_download p g
  | RemoveDownload p => remove_download p g
  | Browse path =>
      {| current_path := path; downloaders := downloaders g;
         progress_widgets := progress_widgets g; objects := objects g;
         frames := frames g; started := started g |}
  end.

Definition run (ops : list op) (g : ClientGUI) : ClientGUI := foldl step g ops.

(** The registry is well formed: its references point to existing objects,
    and no object is registered under two paths. *)
Record wf (g : ClientGUI) : Prop := {
  wf_objects : ∀ p d, downloaders g !! p = Some d → is_Some (objects g !! d);
  wf_frames : ∀ p w, progress_widgets g !! p = Some w → is_Some (frames g !! w);
  wf_downloaders : ∀ p q d,
    downloaders g !! p = Some d → downloaders g !! q = Some d → p = q;
  wf_widgets : ∀ p q w,
    progress_widgets g !! p = Some w → progress_widgets g !! q = Some w → p = q;
}.

(** The downloader [d] and the widget [w] exist, and no path of the
    registry leads to them. *)
Record orphaned (d w : nat) (g : ClientGUI) : Prop := {
  orphan_downloader : ∀ p, downloaders g !! p ≠ Some d;
  orphan_widget : ∀ p, progress_widgets g !! p ≠ Some w;
  orphan_object : is_Some (objects g !! d);
  orphan_frame : is_Some (frames g !! w);
}.

(** The download threads: each downloader is started once, and every
    registered downloader was started. *)
Record threads_started (g : ClientGUI) : Prop := {
  started_once : NoDup (started g);
  started_exist : ∀ d, d ∈ started g → is_Some (objects g !! d);
  started_registered : ∀ p d, downloaders g !! p = Some d → d ∈ started g;
}.

End Gui.

(** ** Vocabulary of the specification *)

Module Spec.
Import Py Server.

Section WithConfig.
Context {os_path : OsPath} (ROOT_DIR : string).

(** The components of a path: what stands between separators. *)
Definition components (p : string) : list string :=
  filter (λ c, c ≠ "") (split os_sep p).

(** Component-wise containment of [p] in [root]: the components of the
    root's absolute path open those of [p]'s absolute path. *)
Definition within_root (root p : string) : bool :=
  bool_decide (components (os_path_abspath root) `prefix_of` components (os_path_abspath p)).

(** The reasons for which a download is refused: the path leaves the root,
    nothing exists there, or a directory does. *)
Inductive refused (fs : filesystem) (path : string) : Prop :=
| AccessDenied :
    safe_join ROOT_DIR path = None → refused fs path
| NotFound full :
    safe_join ROOT_DIR path = Some full → fs full = None → refused fs path
| IsDirectory full :
    safe_join ROOT_DIR path = Some full → isdir fs full = true → refused fs path.

(** A regular file and the bytes it holds. *)
Definition regular (fs : filesystem) (p : string) (content : list byte) : Prop :=
  fs p = Some (File content) ∨ fs p = Some (Unreadable content).

(** What a listing entry says about the child [child] of [full_path]. *)
Definition describes (fs : filesystem) (full_path child : string) (e : entry) : Prop :=
  if isdir fs (os_path_join full_path child) then
    e = {| name := child +:+ "/"; size := ""; is_dir := true |}
  else
    ∃ content, regular fs (os_path_join full_path child) content
      ∧ e = {| name := child;
               size := human_readable_size (N.of_nat (length content));
               is_dir := false |}.

(** The sizes the operating system reports: [st_size] is a signed 64-bit
    number, so every regular file is shorter than [2^63] bytes. *)
Definition sizes_fit (fs : filesystem) : Prop :=
  ∀ p content, regular fs p content → (N.of_nat (length content) < 2 ^ 63)%N.

End WithConfig.

(** The two command frames of the protocol. *)
Definition LIST (path : string) : frame :=
  Cmd (JObj [("type", JStr "LIST"); ("path", JStr path)]).

Definition DOWNLOAD (path : string) : frame :=
  Cmd (JObj [("type", JStr "DOWNLOAD"); ("path", JStr path)]).

(** [fr] is a DOWNLOAD command for [path]: a JSON object whose ["type"] is
    ["DOWNLOAD"] and whose ["path"], [''] when absent, is the string [path]. *)
Definition download_request (fr : frame) (path : string) : Prop :=
  ∃ items,
    fr = Cmd (JObj items)
    ∧ assoc "type" items = Some (JStr "DOWNLOAD")
    ∧ default (JStr "") (assoc "path" items) = JStr path.

(** [fr] is a LIST command for [path]: a JSON object whose ["type"] is
    ["LIST"] and whose ["path"], ['/'] when absent, is the string [path]. *)
Definition list_request (fr : frame) (path : string) : Prop :=
  ∃ items,
    fr = Cmd (JObj items)
    ∧ assoc "type" items = Some (JStr "LIST")
    ∧ default (JStr "/") (assoc "path" items) = JStr path.

(** The raw bytes of what was sent. *)
Definition raw (x : sent) : option (list byte) :=
  match x with
  | Bytes b => Some b
  | Json _ => None
  end.

(** The bytes that follow the first send (the header line). *)
Definition after_header (out : list sent) : list byte :=
  mjoin (omap raw (tail out)).

(** The progress values a run reported to the GUI, in order. *)
Definition reported (calls : list Client.gui_call) : list Z :=
  omap (λ c, match c with Client.UpdateProgress d _ => Some d | _ => None end) calls.

(** The bytes a socket script delivers, in order. *)
Definition delivered (s : Client.socket) : list byte :=
  mjoin (omap (λ e, match e with Client.Data b => Some b | Client.PeerReset => None end) s).

(** A name of a directory entry: not empty and without a slash. *)
Definition component (c : string) : Prop :=
  c ≠ "" ∧ Gui.rfind "/" c = (-1)%Z.

(** The path the client shows for the directory reached from the root
    through [comps]: ["/"], ["/a/"], ["/a/b/"], ... *)
Fixpoint dirs (comps : list string) : string :=
  match comps with
  | [] => ""
  | c :: comps' => c +:+ "/" +:+ dirs comps'
  end.

Definition path_of (comps : list string) : string := "/" +:+ dirs comps.

(** Text made of decimal digits. *)
Definition digits_only (a : string) : Prop :=
  Forall (λ c, Client.is_digit c = true) (list_ascii_of_string a).

(** ASCII text without a newline: what a header line is made of. *)
Definition plain (a : string) : Prop :=
  Forall (λ c, (N_of_ascii c <? 128)%N = true ∧ c ≠ Py.LF) (list_ascii_of_string a).

(** The connection on which every [sendall] of the server arrives as one
    [recv] of the client. *)
Definition one_recv_per_send (out : list sent) : Client.socket :=
  omap (λ x, Client.Data <$> raw x) out.

End Spec.

(** ** Concrete inputs *)

Module Fixtures.
Import Py Server Spec.

(** A shared folder [/srv/share] with a directory [docs] and three files,
    next to a folder [/srv/share-other] that is not shared. *)
Definition ROOT : string := "/srv/share".

Definition tree : filesystem := λ p,
  if String.eqb p "/srv/share" then Some (Dir ["k1537.bin"; "docs.txt"; "k1536.bin"; "docs"])
  else if String.eqb p "/srv/share/docs" then Some (Dir [])
  else if String.eqb p "/srv/share/docs.txt" then Some (File (encode "hello"))
  else if String.eqb p "/srv/share/k1536.bin" then Some (File (replicate 1536 x00))
  else if String.eqb p "/srv/share/k1537.bin" then Some (File (replicate 1537 x00))
  else if String.eqb p "/srv/share-other/secret.txt" then Some (File (encode "secret"))
  else None.

(** A file system holding one file [/srv/share/f] with the given bytes. *)
Definition single (content : list byte) : filesystem := λ p,
  if String.eqb p "/srv/share" then Some (Dir ["f"])
  else if String.eqb p "/srv/share/f" then Some (File content)
  else None.

(** A shared folder that lists a child which is no longer there. *)
Definition vanishing : filesystem := λ p,
  if String.eqb p "/srv/share" then Some (Dir ["ghost"]) else None.

(** A shared folder with a file [a], an entry [locked] whose [stat] is
    refused, and a file [sealed] that cannot be opened. *)
Definition guarded : filesystem := λ p,
  if String.eqb p "/srv/share" then Some (Dir ["locked"; "a"])
  else if String.eqb p "/srv/share/a" then Some (File (encode "hello"))
  else if String.eqb p "/srv/share/locked" then Some StatDenied
  else if String.eqb p "/srv/share/sealed" then Some (Unreadable (encode "hello"))
  else None.

#[export] Instance posix : OsPath := PosixPath.os_path "/".

(** Everything the server sends when asked for [/srv/share/f]. *)
Definition served (content : list byte) : list byte :=
  mjoin (omap raw (handle_frame ROOT (single content) (DOWNLOAD "f")).1).

(** A file whose first bytes are those of the marker. *)
Definition marker_file : list byte := encode ("END" +:+ nl +:+ "X").

(** Its download, arriving as the header, [END\n], [XEN], [D\n]. *)
Definition marker_script : Client.socket :=
  [Client.Data (encode ("SIZE:5" +:+ nl));
   Client.Data (encode ("END" +:+ nl));
   Client.Data (encode "XEN");
   Client.Data (encode ("D" +:+ nl))].

(** The download of the two-byte file [ab], arriving as the header, [abE],
    [ND\n]. *)
Definition overrun_script : Client.socket :=
  [Client.Data (encode ("SIZE:2" +:+ nl));
   Client.Data (encode "abE");
   Client.Data (encode ("ND" +:+ nl))].

(** A ten-byte download whose peer closes after three bytes. *)
Definition truncated_script : Client.socket :=
  [Client.Data (encode ("SIZE:10" +:+ nl)); Client.Data (encode "abc"); Client.Data []].

(** A ten-byte download reset after three bytes. *)
Definition reset_script : Client.socket :=
  [Client.Data (encode ("SIZE:10" +:+ nl)); Client.Data (encode "abc"); Client.PeerReset].

(** A ten-byte download, six bytes of which arrive. *)
Definition slow_script : Client.socket :=
  [Client.Data (encode ("SIZE:10" +:+ nl)); Client.Data (encode "abc");
   Client.Data (encode "def")].

(** An error header. *)
Definition refused_script : Client.socket :=
  [Client.Data (encode ("ERROR: File not found or access denied" +:+ nl))].

End Fixtures.

(** * Properties *)

(** ** The server *)

Section ServerFacts.
Import Py Server Spec.
Context {os_path : OsPath} (ROOT_DIR : string).

(** *** Reading a file in chunks *)

Lemma read_chunks_concat (n : nat) (f : list byte) :
  0 < n → mjoin (read_chunks n f) = f.
Proof.
  intros Hn. funelim (read_chunks n f); clear Heqcall.
  - destruct f as [|x f]; [done|]. destruct n; [lia|]. discriminate.
  - rewrite <- e. simpl. rewrite H by done. apply take_drop.
Qed.

Lemma read_chunks_bounds (n : nat) (f : list byte) :
  Forall (λ chunk, 0 < length chunk ≤ n) (read_chunks n f).
Proof.
  funelim (read_chunks n f); clear Heqcall; [constructor|].
  constructor; [|done].
  assert (length (b :: chunk) ≤ n)%nat by (rewrite <- e, length_take; lia).
  simpl in *. lia.
Qed.

Lemma READ_SIZE_pos : 0 < READ_SIZE.
Proof. apply Nat.ltb_lt. by vm_compute. Qed.

(** *** The loop of the handler *)

Lemma handle_client_continue (fs : filesystem) (fr : frame) (rest : list frame)
  (out : list sent) :
  handle_frame ROOT_DIR fs fr = (out, None) →
  handle_client ROOT_DIR fs (fr :: rest)
  = (out ++ (handle_client ROOT_DIR fs rest).1, (handle_client ROOT_DIR fs rest).2).
Proof.
  intros H. simpl. rewrite H. by destruct (handle_client ROOT_DIR fs rest).
Qed.

Lemma handle_client_crash (fs : filesystem) (fr : frame) (rest : list frame)
  (out : list sent) (e : exn) :
  handle_frame ROOT_DIR fs fr = (out, Some e) →
  handle_client ROOT_DIR fs (fr :: rest) = (out, Crashed e).
Proof. intros H. simpl. by rewrite H. Qed.

Lemma falsy_false (r : option string) :
  falsy r = false → ∃ full, r = Some full ∧ full ≠ "".
Proof. destruct r as [[|a s]|]; simpl; intros; try done. by eexists. Qed.

(** An undecodable JSON text is answered and the loop goes on. *)
Lemma invalid_json_answered (fs : filesystem) (rest : list frame) :
  handle_client ROOT_DIR fs (BadJson :: rest)
  = (Bytes ERR_INVALID_JSON :: (handle_client ROOT_DIR fs rest).1,
     (handle_client ROOT_DIR fs rest).2).
Proof. by rewrite (handle_client_continue _ _ _ [Bytes ERR_INVALID_JSON]). Qed.

(** C7. A frame that decodes to a JSON object without a ["type"] member
    gets no answer: [cmd['type']] raises KeyError, the handler leaves its
    loop and closes the connection, and no later frame is served. *)
Theorem missing_type_closes_connection (fs : filesystem)
  (items : list (string * json)) (rest : list frame) :
  assoc "type" items = None →
  handle_client ROOT_DIR fs (Cmd (JObj items) :: rest) = ([], Crashed KeyError).
Proof.
  intros H. apply handle_client_crash. unfold handle_frame. simpl. by rewrite H.
Qed.

(** So does a frame that decodes to anything but an object. *)
Lemma non_object_closes_connection (fs : filesystem) (cmd : json) (rest : list frame) :
  (∀ items, cmd ≠ JObj items) →
  handle_client ROOT_DIR fs (Cmd cmd :: rest) = ([], Crashed TypeError).
Proof.
  intros Hcmd. apply handle_client_crash.
  destruct cmd; try done. by destruct (Hcmd items).
Qed.

(** A command of another type is skipped without an answer. *)
Lemma unknown_type_is_skipped (fs : filesystem) (items : list (string * json))
  (ty : string) (rest : list frame) :
  assoc "type" items = Some (JStr ty) → ty ≠ "LIST" → ty ≠ "DOWNLOAD" →
  handle_client ROOT_DIR fs (Cmd (JObj items) :: rest) = handle_client ROOT_DIR fs rest.
Proof.
  intros Hty Hl Hd. rewrite (handle_client_continue _ _ _ []).
  - by destruct (handle_client ROOT_DIR fs rest).
  - unfold handle_frame, subscript, eq_str. rewrite Hty.
    apply String.eqb_neq in Hl, Hd. by rewrite Hl, Hd.
Qed.

(** *** Downloads *)

Lemma DOWNLOAD_request (path : string) : download_request (DOWNLOAD path) path.
Proof. by eexists. Qed.

Lemma handle_frame_download (fs : filesystem) (fr : frame) (path : string) :
  download_request fr path →
  handle_frame ROOT_DIR fs fr
  = if falsy (safe_join ROOT_DIR path)
       || negb (isfile fs (default "" (safe_join ROOT_DIR path)))
    then ([Bytes ERR_NOT_FOUND], None)
    else match send_download fs (default "" (safe_join ROOT_DIR path)) with
         | Ok out => (out, None)
         | Raise e =>
             (sent_before_raise fs (default "" (safe_join ROOT_DIR path)), Some e)
         end.
Proof.
  intros (items & -> & Hty & Hpath). unfold handle_frame, subscript, get.
  rewrite Hty. simpl. by rewrite Hpath.
Qed.

(** C3 (amended). For a DOWNLOAD whose path resolves to a regular file, the
    handler sends the header [SIZE:<n>\n] with [n] the file's length, then
    the file's bytes in chunks of at most [READ_SIZE] (65536) bytes, then the four bytes
    [END\n], and then goes on with the next frame. *)
Theorem download_response_frame (fs : filesystem) (fr : frame) (path full : string)
  (content : list byte) (rest : list frame) :
  download_request fr path →
  safe_join ROOT_DIR path = Some full → full ≠ "" → fs full = Some (File content) →
  ∃ body : list (list byte),
    handle_client ROOT_DIR fs (fr :: rest)
    = (Bytes (encode ("SIZE:" +:+ str_of_N (N.of_nat (length content)) +:+ nl))
         :: (Bytes <$> body) ++ [Bytes END_MARKER] ++ (handle_client ROOT_DIR fs rest).1,
       (handle_client ROOT_DIR fs rest).2)
    ∧ mjoin body = content
    ∧ Forall (λ chunk, 0 < length chunk ≤ READ_SIZE) body.
Proof.
  intros Hreq Hjoin Hne Hfile.
  exists (read_chunks READ_SIZE content). split; [|split].
  - assert (handle_frame ROOT_DIR fs fr
            = (Bytes (encode ("SIZE:" +:+ str_of_N (N.of_nat (length content)) +:+ nl))
                 :: (Bytes <$> read_chunks READ_SIZE content) ++ [Bytes END_MARKER],
               None)) as Hframe.
    { rewrite (handle_frame_download _ _ _ Hreq), Hjoin. destruct full as [|a full]; [done|]. simpl.
      unfold isfile, send_download, getsize. rewrite Hfile. done. }
    rewrite (handle_client_continue _ _ _ _ Hframe).
    by rewrite <- app_comm_cons, <- app_assoc.
  - apply read_chunks_concat, READ_SIZE_pos.
  - apply read_chunks_bounds.
Qed.

(** C10. Whatever the reason a DOWNLOAD is refused for (the path leaves the
    root, nothing exists there, or it is a directory), the answer is the one
    header [ERROR: File not found or access denied\n], and the handler goes
    on with the next frame. *)
Theorem download_refusals_look_alike (fs : filesystem) (fr : frame) (path : string)
  (rest : list frame) :
  download_request fr path →
  refused ROOT_DIR fs path →
  handle_client ROOT_DIR fs (fr :: rest)
  = (Bytes ERR_NOT_FOUND :: (handle_client ROOT_DIR fs rest).1,
     (handle_client ROOT_DIR fs rest).2).
Proof.
  intros Hreq Href.
  rewrite (handle_client_continue _ _ _ [Bytes ERR_NOT_FOUND]); [done|].
  rewrite (handle_frame_download _ _ _ Hreq).
  destruct Href as [H|full H Hfs|full H Hdir]; rewrite H; simpl; [done| |].
  - unfold isfile. rewrite Hfs. simpl. by rewrite orb_true_r.
  - unfold isfile. unfold isdir in Hdir.
    destruct (fs full) as [[]|]; try done; simpl; by rewrite orb_true_r.
Qed.

(** *** Listings *)

Lemma str_le_total : Total str_le.
Proof. intros a b. apply String.leb_total. Qed.

Lemma sorted_Sorted (names : list string) : Sorted str_le (sorted names).
Proof. apply (Sorted_merge_sort str_le (Total0 := str_le_total)). Qed.

Lemma sorted_Permutation (names : list string) : sorted names ≡ₚ names.
Proof. apply merge_sort_Permutation. Qed.

Lemma list_item_describes (fs : filesystem) (full child : string) (e : entry) :
  list_item fs full child = Ok e → describes fs full child e.
Proof.
  unfold list_item, describes, regular, getsize, isdir.
  destruct (fs (os_path_join full child)) as [[content|content|names| | | |]|];
    try done; intros [= <-]; try done; exists content; auto.
Qed.

Lemma list_items_describe (fs : filesystem) (full : string) (names : list string) :
  ∀ acc items,
    list_items fs full names acc = Ok items →
    ∃ new, items = acc ++ new ∧ Forall2 (describes fs full) names new.
Proof.
  induction names as [|child names IH]; intros acc items; simpl.
  - intros [= <-]. exists []. by rewrite app_nil_r.
  - destruct (list_item fs full child) as [e|] eqn:He; [|done].
    intros (new & -> & Hnew)%IH. exists (e :: new). split.
    + by rewrite <- app_assoc.
    + constructor; [by apply list_item_describes|done].
Qed.

(** C8 (amended). On a file system whose files have sizes the operating
    system can report (below [2^63] bytes), a listing holds one entry per
    child of the directory, in the order of the children's own names as
    [os.listdir] gave them, sorted; the ["/"] is appended to a directory's
    name after sorting.  A directory's entry has the empty size; a file's
    entry has the human-readable rendering of its byte length. *)
Theorem get_listing_entries (fs : filesystem) (path : string) (items : list entry) :
  sizes_fit fs →
  get_listing ROOT_DIR fs path = Ok (RespListing items) →
  ∃ full names,
    safe_join ROOT_DIR path = Some full
    ∧ listdir fs full = Ok names
    ∧ Sorted str_le (sorted names)
    ∧ sorted names ≡ₚ names
    ∧ Forall2 (describes fs full) (sorted names) items.
Proof.
  intros _. unfold get_listing.
  destruct (falsy (safe_join ROOT_DIR path)) eqn:Hfalsy; [done|].
  apply falsy_false in Hfalsy as (full & -> & _). simpl.
  destruct (isdir fs full); [|done]. simpl.
  destruct (listdir fs full) as [names|[]] eqn:Hnames; try done.
  destruct (list_items fs full (sorted names) []) as [items'|[]] eqn:Hitems; try done.
  intros [= <-]. exists full, names.
  apply list_items_describe in Hitems as (new & -> & Hnew).
  eauto using sorted_Sorted, sorted_Permutation.
Qed.

End ServerFacts.

(** *** The server on concrete inputs *)

Section ServerCases.
Import Py Server Spec Fixtures.

(** C1. With the root [/srv/share], the logical path
    [../share-other/secret.txt] resolves to a file of the sibling folder
    [/srv/share-other]; [safe_join] returns it instead of [None], because it
    compares the two absolute paths as strings, although the path is not
    within the root component by component. *)
Theorem safe_join_accepts_sibling_of_root (cwd : string) :
  safe_join (os_path := PosixPath.os_path cwd) "/srv/share" "../share-other/secret.txt"
  = Some "/srv/share-other/secret.txt"
  ∧ within_root (os_path := PosixPath.os_path cwd)
      "/srv/share" "/srv/share-other/secret.txt" = false.
Proof. split; reflexivity. Qed.

(** What [safe_join] does ensure: a string prefix. *)
Lemma safe_join_prefix `{OsPath} (base path full : string) :
  safe_join base path = Some full →
  startswith (os_path_abspath full) (os_path_abspath base) = true.
Proof.
  unfold safe_join. case_match eqn:Hpre; [done|].
  intros [= <-]. by apply negb_false_iff.
Qed.

(** The sibling's file is then served like any other. *)
Lemma sibling_file_is_served :
  (handle_client ROOT tree [DOWNLOAD "../share-other/secret.txt"]).1
  = [Bytes (encode ("SIZE:6" +:+ nl)); Bytes (encode "secret"); Bytes END_MARKER].
Proof. reflexivity. Qed.

(** A frame without ["type"], followed by a valid LIST that is never served. *)
Lemma missing_type_closes_connection_witness :
  assoc "type" [("path", JStr ".")] = None
  ∧ handle_client ROOT tree [Cmd (JObj [("path", JStr ".")]); LIST "."]
    = ([], Crashed KeyError).
Proof.
  split; [reflexivity|].
  apply (missing_type_closes_connection ROOT tree [("path", JStr ".")] [LIST "."]).
  reflexivity.
Defined.

(** C3 (as stated) fails: for the five-byte file [docs.txt] the bytes that
    follow the header are nine, the file's and [END
]. *)
Lemma download_sends_marker_after_body :
  let out := (handle_client ROOT tree [DOWNLOAD "docs.txt"]).1 in
  tree "/srv/share/docs.txt" = Some (File (encode "hello"))
  ∧ head out = Some (Bytes (encode ("SIZE:5" +:+ nl)))
  ∧ after_header out = encode ("hello" +:+ "END" +:+ nl)
  ∧ after_header out ≠ encode "hello".
Proof. repeat split; try reflexivity. discriminate. Qed.

(** The download of [docs.txt], followed by another frame. *)
Lemma download_response_frame_witness :
  download_request (DOWNLOAD "docs.txt") "docs.txt"
  ∧ safe_join ROOT "docs.txt" = Some "/srv/share/docs.txt"
  ∧ "/srv/share/docs.txt" ≠ ""
  ∧ tree "/srv/share/docs.txt" = Some (File (encode "hello"))
  ∧ ∃ body : list (list byte),
      handle_client ROOT tree [DOWNLOAD "docs.txt"; BadJson]
      = (Bytes (encode ("SIZE:" +:+ str_of_N (N.of_nat (length (encode "hello"))) +:+ nl))
           :: (Bytes <$> body) ++ [Bytes END_MARKER]
              ++ (handle_client ROOT tree [BadJson]).1,
         (handle_client ROOT tree [BadJson]).2)
      ∧ mjoin body = encode "hello"
      ∧ Forall (λ chunk, 0 < length chunk ≤ READ_SIZE) body.
Proof.
  split; [by eexists|].
  split; [reflexivity|]. split; [discriminate|]. split; [reflexivity|].
  apply (download_response_frame ROOT tree (DOWNLOAD "docs.txt") "docs.txt"
           "/srv/share/docs.txt" (encode "hello") [BadJson]);
    [by eexists|reflexivity|discriminate|reflexivity].
Defined.

(** The download of the directory [docs], followed by another frame. *)
Lemma download_refusals_look_alike_witness :
  download_request (DOWNLOAD "docs") "docs"
  ∧ refused ROOT tree "docs"
  ∧ handle_client ROOT tree [DOWNLOAD "docs"; BadJson]
    = (Bytes ERR_NOT_FOUND :: (handle_client ROOT tree [BadJson]).1,
       (handle_client ROOT tree [BadJson]).2).
Proof.
  split; [by eexists|]. split.
  - apply (IsDirectory _ _ _ "/srv/share/docs"); reflexivity.
  - apply (download_refusals_look_alike ROOT tree (DOWNLOAD "docs") "docs" [BadJson]).
    + by eexists.
    + apply (IsDirectory _ _ _ "/srv/share/docs"); reflexivity.
Defined.

(** The three refusals on the wire. *)
Example refusals_on_the_wire :
  refused ROOT tree "../../etc/passwd"
  ∧ refused ROOT tree "nothing.txt"
  ∧ refused ROOT tree "docs"
  ∧ handle_client ROOT tree [DOWNLOAD "../../etc/passwd"] = ([Bytes ERR_NOT_FOUND], PeerClosed)
  ∧ handle_client ROOT tree [DOWNLOAD "nothing.txt"] = ([Bytes ERR_NOT_FOUND], PeerClosed)
  ∧ handle_client ROOT tree [DOWNLOAD "docs"] = ([Bytes ERR_NOT_FOUND], PeerClosed).
Proof.
  split; [apply AccessDenied; reflexivity|].
  split; [apply (NotFound _ _ _ "/srv/share/nothing.txt"); reflexivity|].
  split; [apply (IsDirectory _ _ _ "/srv/share/docs"); reflexivity|].
  repeat split.
Qed.

(** C8 (as stated) fails: in the listing of [/srv/share] the directory
    [docs] comes before the file [docs.txt], while the name returned for it,
    [docs/], sorts after [docs.txt]; and the files of 1536 and of 1537 bytes
    carry the same size. *)
Lemma listing_not_sorted_by_returned_name :
  ∃ items,
    get_listing ROOT tree "." = Ok (RespListing items)
    ∧ name <$> items = ["docs/"; "docs.txt"; "k1536.bin"; "k1537.bin"]
    ∧ ¬ Sorted str_le (name <$> items)
    ∧ size <$> items = [""; "5.0 B"; "1.5 KiB"; "1.5 KiB"].
Proof.
  eexists. split; [vm_compute; reflexivity|]. split; [reflexivity|]. split; [|reflexivity].
  intros Hs. apply Sorted_inv in Hs as [_ Hhd]. apply HdRel_inv in Hhd.
  vm_compute in Hhd. discriminate.
Qed.

(** The files of [tree] are a few bytes long. *)
Lemma tree_sizes_fit : sizes_fit tree.
Proof.
  intros p content [H|H]; unfold tree in H;
    repeat (destruct (String.eqb p _);
            [first [discriminate|injection H as <-; by vm_compute]|]);
    done.
Qed.

(** The listing of [/srv/share]: a directory and three files, which
    [os.listdir] gave in another order. *)
Lemma get_listing_entries_witness :
  let items :=
    [ {| name := "docs/"; size := ""; is_dir := true |};
      {| name := "docs.txt"; size := "5.0 B"; is_dir := false |};
      {| name := "k1536.bin"; size := "1.5 KiB"; is_dir := false |};
      {| name := "k1537.bin"; size := "1.5 KiB"; is_dir := false |} ] in
  sizes_fit tree
  ∧ get_listing ROOT tree "." = Ok (RespListing items)
  ∧ ∃ full names,
      safe_join ROOT "." = Some full
      ∧ listdir tree full = Ok names
      ∧ Sorted str_le (sorted names)
      ∧ sorted names ≡ₚ names
      ∧ Forall2 (describes tree full) (sorted names) items.
Proof.
  intros items.
  split; [exact tree_sizes_fit|]. split; [reflexivity|].
  apply (get_listing_entries ROOT tree "." items tree_sizes_fit). reflexivity.
Defined.

End ServerCases.

(** ** The downloader *)

Section ClientFacts.
Import Py Client Spec.

(** The receive loop raises only what [recv] raises: the end of the stream
    is a [break], not an exception. *)
Lemma receive_loop_raises (total_size : Z) (s : socket) (st st' : loop_state) (e : exn) :
  receive_loop total_size s st = (LoopRaises e, st') → e = ConnectionResetError.
Proof.
  funelim (receive_loop total_size s st); clear Heqcall;
    try (intros [= ]; congruence).
  intros Hrec. by eapply H.
Qed.

(** [self.downloaded] never decreases in the loop, and the values passed
    to [update_progress] from the loop are in non-decreasing order. *)
Lemma receive_loop_progress (total_size : Z) (s : socket) (st st' : loop_state)
  (exit : loop_exit) :
  receive_loop total_size s st = (exit, st') →
  (downloaded st ≤ downloaded st')%Z
  ∧ ∃ new, calls st' = calls st ++ new
      ∧ Sorted Z.le (reported new)
      ∧ Forall (λ d, downloaded st ≤ d ≤ downloaded st')%Z (reported new).
Proof.
  funelim (receive_loop total_size s st); clear Heqcall;
    try (intros [= <- <-]; simpl; split; [lia|];
         exists []; rewrite app_nil_r; repeat split; constructor).
  intros (Hle & new & Hcalls & Hsorted & Hall)%H. simpl in *.
  split; [lia|].
  eexists (_ :: new). split; [by rewrite Hcalls, <- app_assoc|].
  simpl. split.
  - constructor; [done|]. destruct Hall as [|d ds [Hd _] _]; constructor. lia.
  - constructor; [lia|]. eapply Forall_impl; [exact Hall|]. simpl. lia.
Qed.

(** Where the transfer leaves the destination: nothing after a cancel, and
    a file, however short, in every other case. *)
Lemma transfer_dest (total_size : Z) (s : socket) (c : flag) :
  let r := transfer total_size s c in
  (result r = Cancelled → dest r = None)
  ∧ (result r ≠ Cancelled → is_Some (dest r))
  ∧ result r ≠ ServerError
  ∧ ∀ e, result r = Failed e → e = ConnectionResetError.
Proof.
  unfold transfer.
  destruct (receive_loop _ _ _) as [exit st] eqn:Hloop.
  destruct exit as [|e|]; simpl.
  - destruct (read_cancelled (cancel st)) as [[] c']; simpl.
    + split; [done|]. split; [by intros []|]. by split.
    + split; [done|]. split; [by intros; eexists|]. by split.
  - apply receive_loop_raises in Hloop as ->.
    split; [done|]. split; [by intros; eexists|]. split; [done|].
    by intros e [= <-].
  - split; [done|]. split; [by intros; eexists|]. by split.
Qed.

(** C5 (amended). A download that ends with the cancel branch leaves no
    destination file.  A download that fails before the transfer starts (an
    ERROR header, the connection lost while the header is awaited, a header
    that is not a size) leaves the destination as it was before. *)
Theorem cancelled_download_leaves_no_file (dest0 : option (list byte))
  (s : socket) (c : flag) :
  let r := _download dest0 s c in
  (result r = Cancelled → dest r = None)
  ∧ (result r = ServerError → dest r = dest0)
  ∧ (∀ e, result r = Failed e → e ≠ ConnectionResetError → dest r = dest0).
Proof.
  unfold _download.
  destruct (recv_header s []) as [header s'|e|]; simpl; [|done..].
  destruct (decode (first_line header)) as [line|]; simpl; [|done].
  destruct (startswith line "ERROR"); simpl; [done|].
  destruct (startswith line "SIZE:"); simpl; [|done].
  destruct (int (str_from 5 line)) as [total_size| |]; simpl; [|done..].
  destruct (transfer_dest total_size s' c) as (Hc & _ & Hs & Hf).
  repeat split; [done|done|]. intros e He Hne. by apply Hf in He.
Qed.

End ClientFacts.

(** *** The downloader on concrete inputs *)

Section ClientCases.
Import Py Client Spec Fixtures.

(** C2. The server's answer for the five-byte file [END\nX] can arrive as
    [SIZE:5\n], [END\n], [XEN], [D\n].  The client strips the first chunk as
    if it were the marker, counts the marker's own bytes as content, reports
    completion, and stores [XEND\n], which is not the file. *)
Theorem download_stores_other_bytes :
  let r := _download None marker_script None in
  delivered marker_script = served marker_file
  ∧ result r = Completed
  ∧ dest r = Some (encode ("XEND" +:+ nl))
  ∧ dest r ≠ Some marker_file.
Proof. repeat split; try reflexivity. discriminate. Qed.

(** When each [sendall] of the server arrives as one [recv], a file that
    ends with the marker's bytes loses them and the download never ends:
    of its five bytes one is written and counted. *)
Example marker_tail_is_stripped :
  let content := encode ("xEND" +:+ nl) in
  let script :=
    [Data (encode ("SIZE:5" +:+ nl)); Data content; Data (encode ("END" +:+ nl))] in
  let r := _download None script None in
  delivered script = served content
  ∧ result r = Blocked
  ∧ total r = 5%Z
  ∧ received r = 1%Z.
Proof. repeat split. Qed.

(** C4. Ten bytes are announced, three arrive and the peer closes: the
    loop is left by [break], the progress is set to ten of ten, and
    "Complete" is shown over a three-byte file. *)
Theorem truncated_download_reports_complete :
  let r := _download None truncated_script None in
  result r = Completed
  ∧ total r = 10%Z
  ∧ received r = 3%Z
  ∧ dest r = Some (encode "abc")
  ∧ gui r = [UpdateProgress 3 10; UpdateProgress 10 10; ShowInfo "Complete"; RemoveDownload].
Proof. repeat split. Qed.

(** The same event while the header is awaited is an error. *)
Example closed_before_header_fails (dest0 : option (list byte)) (c : flag) :
  result (_download dest0 [Data []] c) = Failed ConnectionLost.
Proof. reflexivity. Qed.

(** No transfer ends as a failure because the stream ended. *)
Lemma stream_end_is_not_a_failure (total_size : Z) (s : socket) (c : flag) (e : exn) :
  result (transfer total_size s c) = Failed e → e = ConnectionResetError.
Proof. apply transfer_dest. Qed.

(** A cancel that is set when the loop tests its condition ends the
    download as cancelled, whatever the connection still holds. *)
Lemma cancel_seen_by_the_loop (total_size : Z) (s : socket) :
  let r := transfer total_size s (Some 0) in
  result r = Cancelled ∧ dest r = None.
Proof. unfold transfer. by simp receive_loop. Qed.

(** A cancel set while [recv] waits for bytes that never come is not seen:
    the download stays where it is, six bytes of ten received. *)
Example cancel_during_a_silent_recv :
  let r := _download None slow_script (Some 3) in
  result r = Blocked ∧ received r = 6%Z ∧ gui r = [UpdateProgress 3 10; UpdateProgress 6 10].
Proof. by repeat split. Qed.

(** The five-byte file [hello], each [sendall] arriving as one [recv], is
    stored as it is. *)
Example download_of_hello :
  let script :=
    [Data (encode ("SIZE:5" +:+ nl)); Data (encode "hello"); Data (encode ("END" +:+ nl))] in
  let r := _download None script None in
  delivered script = served (encode "hello")
  ∧ result r = Completed
  ∧ dest r = Some (encode "hello")
  ∧ reported (gui r) = [5; 5]%Z.
Proof. repeat split. Qed.

(** An error header ends the download before any file is opened. *)
Example refused_download_keeps_destination :
  let r := _download (Some (encode "old")) refused_script None in
  result r = ServerError
  ∧ dest r = Some (encode "old")
  ∧ gui r = [ShowError "Error" (inl " File not found or access denied");
             RemoveDownload; RemoveDownload].
Proof. repeat split. Qed.

(** C5 (as stated) fails: a reset after three of ten bytes ends the download
    as failed, and the three bytes stay at the destination. *)
Lemma failed_download_leaves_partial_file :
  let r := _download None reset_script None in
  result r = Failed ConnectionResetError
  ∧ dest r = Some (encode "abc")
  ∧ dest r ≠ None.
Proof. repeat split. discriminate. Qed.

(** A cancel seen at the third test of the loop, over an older file. *)
Lemma cancelled_download_leaves_no_file_witness :
  let r := _download (Some (encode "old")) slow_script (Some 2) in
  result r = Cancelled ∧ dest r = None.
Proof.
  split; [reflexivity|].
  apply (cancelled_download_leaves_no_file (Some (encode "old")) slow_script (Some 2)).
  reflexivity.
Defined.

(** C6. The server's answer for the two-byte file [ab] can arrive as
    [SIZE:2\n], [abE], [ND\n].  The client counts the three bytes of the
    second chunk: [downloaded] is 3 with a total of 2, 3 is reported as the
    progress, and the value reported last, 2, is smaller. *)
Theorem progress_exceeds_total :
  let r := _download None overrun_script None in
  delivered overrun_script = served (encode "ab")
  ∧ result r = Completed
  ∧ total r = 2%Z
  ∧ received r = 3%Z
  ∧ reported (gui r) = [3; 2]%Z
  ∧ dest r = Some (encode "abE").
Proof. repeat split. Qed.

End ClientCases.

(** ** The session registry *)

Section RegistryFacts.
Import Py Gui.

Lemma fresh_object (g : ClientGUI) (d : nat) :
  is_Some (objects g !! d) → fresh (dom (objects g)) ≠ d.
Proof.
  intros Hd%elem_of_dom <-. by apply (is_fresh (dom (objects g))).
Qed.

Lemma fresh_frame (g : ClientGUI) (w : nat) :
  is_Some (frames g !! w) → fresh (dom (frames g)) ≠ w.
Proof.
  intros Hw%elem_of_dom <-. by apply (is_fresh (dom (frames g))).
Qed.

Lemma wf_init : wf init.
Proof. split; simpl; intros *; by rewrite lookup_empty. Qed.

Lemma wf_remove_download (p : string) (g : ClientGUI) : wf g → wf (remove_download p g).
Proof.
  intros [Ho Hf Hd Hw]. unfold remove_download.
  destruct (progress_widgets g !! p) as [w|] eqn:Hpw; simpl;
    destruct (downloaders g !! p) as [d|] eqn:Hdl; simpl; split; simpl;
    intros *;
    rewrite ?lookup_delete, ?lookup_alter;
    repeat case_decide; subst; try done; eauto;
    try (intros H1; apply Hf in H1 as [x Hx]; rewrite Hx; by eexists);
    try (intros H1; apply Hf in H1 as [x Hx]; by eexists).
Qed.

Lemma wf_update_progress (p : string) (d t : Z) (g : ClientGUI) :
  wf g → wf (update_progress p d t g).
Proof.
  intros [Ho Hf Hd Hw]. unfold update_progress.
  destruct (progress_widgets g !! p) as [w|] eqn:Hpw; [|done].
  split; simpl; eauto.
  intros q w' [x Hx]%Hf. rewrite lookup_alter. case_decide; subst; rewrite Hx; by eexists.
Qed.

Lemma wf_cancel_download (p : string) (g : ClientGUI) : wf g → wf (cancel_download p g).
Proof.
  intros Hwf. unfold cancel_download. apply wf_remove_download.
  destruct (downloaders g !! p) as [d|] eqn:Hdl; [|done].
  destruct Hwf as [Ho Hf Hd Hw]. split; simpl; eauto.
  intros q d' [x Hx]%Ho. rewrite lookup_alter. case_decide; subst; rewrite Hx; by eexists.
Qed.

Lemma wf_start_download (selection : option string) (save : string) (g : ClientGUI) :
  wf g → wf (start_download selection save g).
Proof.
  intros [Ho Hf Hd Hw]. unfold start_download.
  destruct selection as [name|]; [|done].
  destruct (String.eqb save ""); [done|].
  set (p := replace_dslash (current_path g +:+ name)).
  split; simpl.
  - intros q d. rewrite lookup_insert. case_decide; subst.
    + intros [= <-]. rewrite lookup_insert_eq. by eexists.
    + intros Hq. pose proof (Ho _ _ Hq) as Hsome.
      rewrite lookup_insert_ne; [done|]. by apply fresh_object.
  - intros q w. rewrite lookup_insert. case_decide; subst.
    + intros [= <-]. rewrite lookup_insert_eq. by eexists.
    + intros Hq. pose proof (Hf _ _ Hq) as Hsome.
      rewrite lookup_insert_ne; [done|]. by apply fresh_frame.
  - intros q q' d. rewrite !lookup_insert.
    repeat case_decide; subst; try done; eauto.
    + intros [= <-] Hq. apply Ho in Hq. by apply fresh_object in Hq.
    + intros Hq [= <-]. apply Ho in Hq. by apply fresh_object in Hq.
  - intros q q' w. rewrite !lookup_insert.
    repeat case_decide; subst; try done; eauto.
    + intros [= <-] Hq. apply Hf in Hq. by apply fresh_frame in Hq.
    + intros Hq [= <-]. apply Hf in Hq. by apply fresh_frame in Hq.
Qed.

Lemma wf_step (g : ClientGUI) (o : op) : wf g → wf (step g o).
Proof.
  destruct o; simpl;
    eauto using wf_start_download, wf_update_progress, wf_cancel_download,
      wf_remove_download.
  intros [Ho Hf Hd Hw]. by split.
Qed.

Lemma wf_run (ops : list op) (g : ClientGUI) : wf g → wf (run ops g).
Proof.
  unfold run. revert g. induction ops as [|o ops IH]; intros g Hwf; [done|].
  simpl. by apply IH, wf_step.
Qed.

(** *** What no path leads to stays as it is *)

Lemma orphaned_remove_download (d w : nat) (p : string) (g : ClientGUI) :
  orphaned d w g →
  orphaned d w (remove_download p g)
  ∧ objects (remove_download p g) !! d = objects g !! d
  ∧ frames (remove_download p g) !! w = frames g !! w.
Proof.
  intros [Hd Hw Ho Hf]. unfold remove_download.
  assert (∀ w', progress_widgets g !! p = Some w' → w' ≠ w) as Hne
    by (intros w' H ->; by eapply Hw).
  destruct (progress_widgets g !! p) as [w'|] eqn:Hpw; simpl;
    destruct (downloaders g !! p) as [d'|] eqn:Hdl; simpl;
    (split; [split; simpl|split; simpl]); try done;
    try (intros q; rewrite lookup_delete; case_decide; [done|by auto]);
    try (rewrite lookup_alter_ne; [done|by apply Hne]).
Qed.

Lemma orphaned_step (d w : nat) (g : ClientGUI) (o : op) :
  orphaned d w g →
  orphaned d w (step g o)
  ∧ objects (step g o) !! d = objects g !! d
  ∧ frames (step g o) !! w = frames g !! w.
Proof.
  intros Horph. pose proof Horph as [Hd Hw Ho Hf].
  destruct o as [selection save|p dl t|p|p|path]; simpl.
  - unfold start_download. destruct selection as [name|]; [|done].
    destruct (String.eqb save ""); [done|]. simpl.
    pose proof (fresh_object g d Ho) as Hfd.
    pose proof (fresh_frame g w Hf) as Hfw.
    split; [split; simpl|split].
    + intros q. rewrite lookup_insert. case_decide; [congruence|done].
    + intros q. rewrite lookup_insert. case_decide; [congruence|done].
    + by rewrite lookup_insert_ne.
    + by rewrite lookup_insert_ne.
    + by rewrite lookup_insert_ne.
    + by rewrite lookup_insert_ne.
  - unfold update_progress.
    destruct (progress_widgets g !! p) as [w'|] eqn:Hpw; [|done]. simpl.
    assert (w' ≠ w) by (intros ->; by eapply Hw).
    split; [split; simpl|split]; try done; by rewrite lookup_alter_ne.
  - unfold cancel_download.
    destruct (downloaders g !! p) as [d'|] eqn:Hdl; [|by apply orphaned_remove_download].
    assert (d' ≠ d) by (intros ->; by eapply Hd).
    edestruct (orphaned_remove_download d w p) as (H1 & H2 & H3); [|split; [exact H1|]].
    + split; simpl; try done. by rewrite lookup_alter_ne.
    + rewrite H2, H3. simpl. by rewrite lookup_alter_ne.
  - by apply orphaned_remove_download.
  - by split.
Qed.

Lemma orphaned_run (d w : nat) (ops : list op) (g : ClientGUI) :
  orphaned d w g →
  orphaned d w (run ops g)
  ∧ objects (run ops g) !! d = objects g !! d
  ∧ frames (run ops g) !! w = frames g !! w.
Proof.
  unfold run. revert g. induction ops as [|o ops IH]; intros g Horph; [done|].
  simpl. destruct (orphaned_step d w g o Horph) as (H1 & H2 & H3).
  destruct (IH _ H1) as (H4 & H5 & H6). by rewrite H5, H6.
Qed.

(** C9. A path of the registry leads to one downloader and one widget.
    When a download is started for a path that already has a session (after
    any history of the GUI), the path leads to a new downloader and a new
    widget.  Whatever happens later, no path leads to the earlier downloader
    or to its widget: the earlier downloader's fields, its [cancelled] flag
    among them, and what its widget shows are never changed again. *)
Theorem restart_orphans_running_download (history later : list op)
  (name save : string) (d1 w1 : nat) :
  let g := run history init in
  let p := replace_dslash (current_path g +:+ name) in
  let g' := start_download (Some name) save g in
  let g'' := run later g' in
  save ≠ "" →
  downloaders g !! p = Some d1 →
  progress_widgets g !! p = Some w1 →
  (∃ d2 w2, downloaders g' !! p = Some d2 ∧ progress_widgets g' !! p = Some w2
            ∧ d2 ≠ d1 ∧ w2 ≠ w1)
  ∧ (∀ q, downloaders g'' !! q ≠ Some d1)
  ∧ (∀ q, progress_widgets g'' !! q ≠ Some w1)
  ∧ objects g'' !! d1 = objects g !! d1
  ∧ frames g'' !! w1 = frames g !! w1.
Proof.
  intros g p g' g'' Hsave Hd1 Hw1.
  assert (wf g) as [Ho Hf Hd Hw] by apply wf_run, wf_init.
  pose proof (fresh_object g d1 (Ho _ _ Hd1)) as Hfd.
  pose proof (fresh_frame g w1 (Hf _ _ Hw1)) as Hfw.
  assert (String.eqb save "" = false) as Hsave' by by apply String.eqb_neq.
  assert (downloaders g' = <[p := fresh (dom (objects g))]> (downloaders g)) as Hdl'
    by (unfold g', start_download; by rewrite Hsave').
  assert (progress_widgets g' = <[p := fresh (dom (frames g))]> (progress_widgets g)) as Hpw'
    by (unfold g', start_download; by rewrite Hsave').
  assert (objects g' !! d1 = objects g !! d1) as Hobj'
    by (unfold g', start_download; rewrite Hsave'; simpl; by rewrite lookup_insert_ne).
  assert (frames g' !! w1 = frames g !! w1) as Hfr'
    by (unfold g', start_download; rewrite Hsave'; simpl; by rewrite lookup_insert_ne).
  assert (orphaned d1 w1 g') as Horph.
  { split.
    - intros q. rewrite Hdl', lookup_insert. case_decide; [congruence|].
      intros Hq. by specialize (Hd _ _ _ Hd1 Hq).
    - intros q. rewrite Hpw', lookup_insert. case_decide; [congruence|].
      intros Hq. by specialize (Hw _ _ _ Hw1 Hq).
    - rewrite Hobj'. eauto.
    - rewrite Hfr'. eauto. }
  destruct (orphaned_run d1 w1 later g' Horph) as ([H1 H2 _ _] & H3 & H4).
  split; [|split; [done|split; [done|]]];
    [|split; unfold g''; [by rewrite H3|by rewrite H4]].
  exists (fresh (dom (objects g))), (fresh (dom (frames g))).
  by rewrite Hdl', Hpw', !lookup_insert_eq.
Qed.

End RegistryFacts.

Section RegistryCases.
Import Py Gui Fixtures.

(** [/a.bin] is started twice; the cancel and the progress that follow do
    not reach the first downloader and its widget. *)
Lemma restart_orphans_running_download_witness :
  let g := run [StartDownload (Some "a.bin") "/tmp/a.bin"] init in
  let g'' := run [CancelDownload "/a.bin"; UpdateProgress "/a.bin" 5 9]
               (start_download (Some "a.bin") "/tmp/again.bin" g) in
  "/tmp/again.bin" ≠ ""
  ∧ downloaders g !! "/a.bin" = Some 0
  ∧ progress_widgets g !! "/a.bin" = Some 0
  ∧ objects g'' !! 0 = objects g !! 0
  ∧ frames g'' !! 0 = frames g !! 0.
Proof.
  split; [discriminate|]. split; [reflexivity|]. split; [reflexivity|].
  apply (restart_orphans_running_download
           [StartDownload (Some "a.bin") "/tmp/a.bin"]
           [CancelDownload "/a.bin"; UpdateProgress "/a.bin" 5 9]
           "a.bin" "/tmp/again.bin" 0 0); [discriminate|reflexivity|reflexivity].
Defined.

(** The Cancel button of the first download's widget then cancels the
    second download. *)
Example cancel_reaches_the_second_download :
  let g := run [StartDownload (Some "a.bin") "/tmp/a.bin";
                StartDownload (Some "a.bin") "/tmp/again.bin";
                CancelDownload "/a.bin"] init in
  cancelled <$> objects g !! 0 = Some false
  ∧ cancelled <$> objects g !! 1 = Some true
  ∧ destroyed <$> frames g !! 0 = Some false.
Proof. repeat split. Qed.

End RegistryCases.

(** * Further properties *)

(** ** Strings *)

Section StringFacts.

Lemma str_app_cons (x : ascii) (a b : string) : String x a +:+ b = String x (a +:+ b).
Proof. reflexivity. Qed.

Lemma str_app_assoc (a b c : string) : (a +:+ b) +:+ c = a +:+ (b +:+ c).
Proof. induction a as [|x a IH]; [done|]. rewrite !str_app_cons. by f_equal. Qed.

Lemma str_app_nil_r (a : string) : a +:+ "" = a.
Proof. induction a as [|x a IH]; [done|]. rewrite str_app_cons. by f_equal. Qed.

Lemma str_length_app (a b : string) :
  String.length (a +:+ b) = (String.length a + String.length b)%nat.
Proof.
  induction a as [|x a IH]; [reflexivity|].
  rewrite str_app_cons. simpl. by rewrite IH.
Qed.

End StringFacts.

(** ** The server's sessions *)

Section SessionFacts.
Import Py Server Spec.
Context {os_path : OsPath} (ROOT_DIR : string).

Lemma list_items_raises (fs : filesystem) (full : string) (names : list string) :
  ∀ acc e,
    list_items fs full names acc = Raise e →
    ∃ child, child ∈ names ∧ list_item fs full child = Raise e.
Proof.
  induction names as [|child names IH]; intros acc e; simpl; [done|].
  destruct (list_item fs full child) as [x|e'] eqn:Hitem.
  - intros (c & Hc & He)%IH. exists c. split; [by right|done].
  - intros [= <-]. exists child. split; [by left|done].
Qed.

Lemma list_item_raises (fs : filesystem) (full child : string) (e : exn) :
  list_item fs full child = Raise e →
  isdir fs (os_path_join full child) = false
  ∧ getsize fs (os_path_join full child) = Raise e.
Proof.
  unfold list_item. destruct (isdir fs (os_path_join full child)); [done|].
  destruct (getsize fs (os_path_join full child)); [done|]. by intros [= ->].
Qed.

Lemma describes_list_item (fs : filesystem) (full child : string) (e : entry) :
  describes fs full child e → list_item fs full child = Ok e.
Proof.
  unfold list_item, describes, regular, getsize, isdir.
  destruct (fs (os_path_join full child)) as [[content|content|names| | | |]|];
    try (by intros ->); by intros (c & [[= <-]|[= <-]] & ->).
Qed.

(** The loop stops at the first child whose size cannot be taken. *)
Lemma list_items_stop (fs : filesystem) (full : string) (before after : list string)
  (child : string) (e : exn) :
  Forall (λ c, ∃ x, describes fs full c x) before →
  list_item fs full child = Raise e →
  ∀ acc, list_items fs full (before ++ child :: after) acc = Raise e.
Proof.
  intros Hbefore Hchild. induction Hbefore as [|c before [x Hx] _ IH]; intros acc; simpl.
  - by rewrite Hchild.
  - by rewrite (describes_list_item _ _ _ _ Hx).
Qed.

Lemma handle_frame_list (fs : filesystem) (fr : frame) (path : string) :
  list_request fr path →
  handle_frame ROOT_DIR fs fr
  = match get_listing ROOT_DIR fs path with
    | Ok response => ([Json response], None)
    | Raise e => ([], Some e)
    end.
Proof.
  intros (items & -> & Hty & Hpath). unfold handle_frame, subscript, get.
  rewrite Hty. simpl. by rewrite Hpath.
Qed.

(** [get_listing] never lets a PermissionError out.  When [os.listdir]
    raises it, or [os.path.getsize] does for the first child that cannot be
    described, the answer is "Permission denied".  An exception that leaves
    [get_listing] is another one, raised by [os.listdir] or by
    [os.path.getsize] for a listed child that is not a directory. *)
Theorem get_listing_errors (fs : filesystem) (path full : string) :
  safe_join ROOT_DIR path = Some full → full ≠ "" → isdir fs full = true →
  (listdir fs full = Raise PermissionError →
   get_listing ROOT_DIR fs path = Ok (RespError "Permission denied"))
  ∧ (∀ names before child after,
       listdir fs full = Ok names →
       sorted names = before ++ child :: after →
       Forall (λ c, ∃ x, describes fs full c x) before →
       isdir fs (os_path_join full child) = false →
       getsize fs (os_path_join full child) = Raise PermissionError →
       get_listing ROOT_DIR fs path = Ok (RespError "Permission denied"))
  ∧ (∀ e,
       get_listing ROOT_DIR fs path = Raise e →
       e ≠ PermissionError
       ∧ (listdir fs full = Raise e
          ∨ ∃ names child,
              listdir fs full = Ok names
              ∧ child ∈ names
              ∧ isdir fs (os_path_join full child) = false
              ∧ getsize fs (os_path_join full child) = Raise e)).
Proof.
  intros Hjoin Hne Hdir. unfold get_listing. rewrite Hjoin.
  destruct full as [|a full]; [done|]. simpl. rewrite Hdir. simpl.
  split; [by intros ->|]. split.
  - intros names before child after -> Hsorted Hbefore Hnodir Hsize.
    rewrite Hsorted, (list_items_stop _ _ before after child PermissionError); [done..|].
    unfold list_item. by rewrite Hnodir, Hsize.
  - intros e. destruct (listdir fs (String a full)) as [names|e'] eqn:Hnames.
    + destruct (list_items fs (String a full) (sorted names) []) as [items|e'] eqn:Hitems;
        [done|].
      apply list_items_raises in Hitems as (child & Hchild & Hitem).
      apply list_item_raises in Hitem as [Hnodir Hsize].
      intros He. assert (e' = e ∧ e ≠ PermissionError) as [-> Hother].
      { revert He. destruct e'; intros [= <-]; by split. }
      split; [done|]. right. exists names, child. repeat split; try done.
      by rewrite <- (sorted_Permutation names).
    + intros He. assert (e' = e ∧ e ≠ PermissionError) as [-> Hother].
      { revert He. destruct e'; intros [= <-]; by split. }
      split; [done|]. by left.
Qed.

(** A DOWNLOAD of a regular file that [open] refuses is not answered with
    an error header: the handler has sent the header [SIZE:<n>\n] when
    [open] raises PermissionError, and it closes the connection without a
    body, without the marker and without serving any later frame. *)
Theorem unreadable_download_closes_connection (fs : filesystem) (fr : frame)
  (path full : string) (content : list byte) (rest : list frame) :
  download_request fr path →
  safe_join ROOT_DIR path = Some full → full ≠ "" →
  fs full = Some (Unreadable content) →
  handle_client ROOT_DIR fs (fr :: rest)
  = ([Bytes (encode ("SIZE:" +:+ str_of_N (N.of_nat (length content)) +:+ nl))],
     Crashed PermissionError).
Proof.
  intros Hreq Hjoin Hne Hfile. apply handle_client_crash.
  rewrite (handle_frame_download _ _ _ _ Hreq), Hjoin.
  destruct full as [|a full]; [done|]. simpl.
  unfold isfile, send_download, sent_before_raise, getsize. by rewrite Hfile.
Qed.

End SessionFacts.

(** ** [human_readable_size] *)

Section SizeFacts.
Import Py Server.

Lemma round_half_even_bounds (a b lo hi : N) :
  (0 < b)%N → (lo * b ≤ a)%N → (a < hi * b)%N →
  (lo ≤ round_half_even a b ≤ hi)%N.
Proof.
  intros Hb Hlo Hhi. unfold round_half_even.
  assert (lo ≤ a / b)%N by (apply N.div_le_lower_bound; lia).
  assert (a / b < hi)%N by (apply N.Div0.div_lt_upper_bound; lia).
  repeat case_match; lia.
Qed.

Lemma round_half_even_exact (a : N) : round_half_even a 1 = a.
Proof.
  unfold round_half_even. rewrite N.div_1_r, N.mod_1_r. done.
Qed.

(** An [int] below [2^53] is its own double. *)
Lemma to_float_exact (n : N) : (n < 2 ^ 53)%N → to_float n = n.
Proof. intros H. unfold to_float. by rewrite (proj2 (N.ltb_lt _ _) H). Qed.

(** Below 1024 bytes the size is shown exactly, as the number of bytes with
    [.0] and the unit [B]. *)
Theorem human_readable_size_bytes (size : N) :
  (size < 1024)%N →
  human_readable_size size = str_of_N size +:+ ".0 B".
Proof.
  intros Hsize. unfold human_readable_size, hrs_loop.
  rewrite to_float_exact by (change (2 ^ 53)%N with 9007199254740992%N; lia).
  replace (size <? 1024 * 1)%N with true by (symmetry; apply N.ltb_lt; lia).
  unfold fmt_1f. rewrite round_half_even_exact.
  replace (10 * size / 10)%N with size by (rewrite N.mul_comm, N.div_mul; lia).
  replace ((10 * size) mod 10)%N with 0%N
    by (rewrite N.mul_comm, N.Div0.mod_mul; lia).
  by rewrite !str_app_assoc.
Qed.

(** From 1 KiB up to, not including, 1 PiB the unit is one of KiB, MiB,
    GiB, TiB, and the number in front of it, taken in tenths, lies between
    1.0 and 1024.0: rounding can show [1024.0] of a unit. *)
Theorem human_readable_size_mantissa (size : N) :
  (1024 ≤ size < 1024 ^ 5)%N →
  ∃ tenths unit,
    human_readable_size size
    = str_of_N (tenths / 10) +:+ "." +:+ str_of_N (tenths mod 10) +:+ " " +:+ unit +:+ "B"
    ∧ (10 ≤ tenths ≤ 10240)%N
    ∧ unit ∈ ["Ki"; "Mi"; "Gi"; "Ti"].
Proof.
  intros [Hlo Hhi]. unfold human_readable_size, hrs_loop.
  rewrite to_float_exact
    by (change (2 ^ 53)%N with 9007199254740992%N;
        change (1024 ^ 5)%N with 1125899906842624%N in Hhi; lia).
  replace (size <? 1024 * 1)%N with false by (symmetry; apply N.ltb_ge; lia).
  assert (∀ den unit, (0 < den)%N → (den ≤ size)%N → (size < 1024 * den)%N →
            unit ∈ ["Ki"; "Mi"; "Gi"; "Ti"] →
            ∃ tenths unit',
              fmt_1f size den +:+ " " +:+ unit +:+ "B"
              = str_of_N (tenths / 10) +:+ "." +:+ str_of_N (tenths mod 10)
                  +:+ " " +:+ unit' +:+ "B"
              ∧ (10 ≤ tenths ≤ 10240)%N
              ∧ unit' ∈ ["Ki"; "Mi"; "Gi"; "Ti"]) as Hshow.
  { intros den unit Hden H1 H2 Hunit.
    exists (round_half_even (10 * size) den), unit. split; [|split; [|done]].
    - unfold fmt_1f. by rewrite !str_app_assoc.
    - apply round_half_even_bounds; lia. }
  destruct (size <? 1024 * (1 * 1024))%N eqn:H1;
    [apply N.ltb_lt in H1; apply Hshow; [lia..|set_solver]|apply N.ltb_ge in H1].
  destruct (size <? 1024 * (1 * 1024 * 1024))%N eqn:H2;
    [apply N.ltb_lt in H2; apply Hshow; [lia..|set_solver]|apply N.ltb_ge in H2].
  destruct (size <? 1024 * (1 * 1024 * 1024 * 1024))%N eqn:H3;
    [apply N.ltb_lt in H3; apply Hshow; [lia..|set_solver]|apply N.ltb_ge in H3].
  destruct (size <? 1024 * (1 * 1024 * 1024 * 1024 * 1024))%N eqn:H4;
    [apply N.ltb_lt in H4; apply Hshow; [lia..|set_solver]|apply N.ltb_ge in H4].
  exfalso. change (1024 ^ 5)%N with 1125899906842624%N in Hhi. lia.
Qed.

End SizeFacts.

(** ** Path resolution on a POSIX host *)

Section PosixFacts.
Import Py Server Spec.
Variable cwd : string.
Variable ROOT_DIR : string.

Lemma replace_char_same (c : ascii) (s : string) : replace_char c c s = s.
Proof.
  induction s as [|x s IH]; simpl; [done|].
  rewrite IH. by destruct (Ascii.eqb_spec x c) as [->|].
Qed.

Lemma join_absolute (a b : string) :
  startswith b "/" = true → PosixPath.join a b = b.
Proof. intros H. unfold PosixPath.join. by rewrite H. Qed.

Lemma normpath_nonempty (p : string) : PosixPath.normpath p ≠ "".
Proof.
  unfold PosixPath.normpath. destruct (String.eqb p ""); [done|].
  match goal with |- context [String.eqb ?x ""] => destruct (String.eqb_spec x "") end; done.
Qed.

Lemma prefix_of_slash (x : string) :
  String.prefix x "/" = true → x = "" ∨ x = "/".
Proof.
  destruct x as [|c [|d x]]; simpl; auto.
  - destruct (ascii_dec c "/") as [->|]; auto. done.
  - destruct (ascii_dec c "/"); done.
Qed.

Lemma safe_join_absolute (path : string) :
  startswith path "/" = true →
  safe_join (os_path := PosixPath.os_path cwd) ROOT_DIR path
  = if startswith (PosixPath.abspath cwd (PosixPath.normpath path))
         (PosixPath.abspath cwd ROOT_DIR)
    then Some (PosixPath.normpath path)
    else None.
Proof.
  intros Habs. unfold safe_join. simpl.
  rewrite replace_char_same, !(join_absolute _ _ Habs).
  by destruct (startswith (PosixPath.abspath cwd (PosixPath.normpath path)) _).
Qed.

(** A logical path that begins with ["/"] is not put under the root:
    [os.path.join] drops the root, and the path is accepted when its own
    normal form, as a path of the server, begins with the root's absolute
    path. *)
Theorem posix_absolute_logical_path (path : string) :
  startswith path "/" = true →
  safe_join (os_path := PosixPath.os_path cwd) ROOT_DIR path
  = if startswith (PosixPath.abspath cwd (PosixPath.normpath path))
         (PosixPath.abspath cwd ROOT_DIR)
    then Some (PosixPath.normpath path)
    else None.
Proof. apply safe_join_absolute. Qed.

Lemma safe_join_slash :
  PosixPath.abspath cwd ROOT_DIR ≠ "/" → safe_join (os_path := PosixPath.os_path cwd) ROOT_DIR "/" = None.
Proof.
  intros Hroot. rewrite safe_join_absolute by done.
  change (PosixPath.abspath cwd (PosixPath.normpath "/")) with "/".
  destruct (startswith "/" (PosixPath.abspath cwd ROOT_DIR)) eqn:Hpre; [|done].
  apply prefix_of_slash in Hpre as [Hpre|Hpre]; [|done].
  by apply normpath_nonempty in Hpre.
Qed.

(** The path ["/"], which is also the one a LIST without a path stands for
    and the first the client asks for, is answered "Access denied" unless
    the root is the root of the file system. *)
Theorem posix_listing_of_slash_refused (fs : filesystem) (fr : frame)
  (rest : list frame) :
  list_request fr "/" →
  PosixPath.abspath cwd ROOT_DIR ≠ "/" →
  handle_client (os_path := PosixPath.os_path cwd) ROOT_DIR fs (fr :: rest)
  = (Json (RespError "Access denied") :: (handle_client (os_path := PosixPath.os_path cwd) ROOT_DIR fs rest).1,
     (handle_client (os_path := PosixPath.os_path cwd) ROOT_DIR fs rest).2).
Proof.
  intros Hreq Hroot.
  rewrite (handle_client_continue (os_path := PosixPath.os_path cwd) _ _ _ _ [Json (RespError "Access denied")]); [done|].
  rewrite (handle_frame_list (os_path := PosixPath.os_path cwd) _ _ _ _ Hreq). unfold get_listing.
  by rewrite (safe_join_slash Hroot).
Qed.

End PosixFacts.

(** ** The downloader's loops *)

Section LoopFacts.
Import Py Client Spec.

Lemma recv_header_step (s : socket) (header : list byte) :
  recv_header s header
  = if bool_decide (LF ∈ header) then Header header s
    else match recv 1024 s with
         | RecvBlocks => HeaderBlocks
         | RecvRaises => HeaderRaises ConnectionResetError
         | Chunk [] _ => HeaderRaises ConnectionLost
         | Chunk (b :: chunk) s' => recv_header s' (header ++ b :: chunk)
         end.
Proof.
  funelim (recv_header s header); clear Heqcall; rewrite ?Heq; try rewrite e; done.
Qed.

Lemma receive_loop_step (total_size : Z) (s : socket) (st : loop_state) :
  receive_loop total_size s st
  = let '(cancelled, c') := read_cancelled (cancel st) in
    let stay := {| cancel := c'; downloaded := downloaded st;
                   file := file st; calls := calls st |} in
    if cancelled then (LoopEnds, stay)
    else if (downloaded st <? total_size)%Z then
      match recv CHUNK_SIZE s with
      | RecvBlocks => (LoopBlocks, stay)
      | RecvRaises => (LoopRaises ConnectionResetError, stay)
      | Chunk [] _ => (LoopEnds, stay)
      | Chunk (b :: chunk0) s' =>
          let chunk := strip_marker (b :: chunk0) in
          let downloaded' := (downloaded st + Z.of_nat (length chunk))%Z in
          receive_loop total_size s'
            {| cancel := c'; downloaded := downloaded';
               file := file st ++ chunk;
               calls := calls st ++ [UpdateProgress downloaded' total_size] |}
      end
    else (LoopEnds, stay).
Proof.
  funelim (receive_loop total_size s st); clear Heqcall;
    rewrite ?Heq, ?Heq0; try rewrite Heq; try rewrite e; done.
Qed.

Lemma recv_length (bufsize : nat) (s s' : socket) (chunk : list byte) :
  recv bufsize s = Chunk chunk s' → (length chunk ≤ bufsize)%nat.
Proof.
  destruct s as [|[segment|] s0]; simpl; try done.
  destruct (length segment <=? bufsize)%nat eqn:Hlen; intros [= <- <-].
  - by apply Nat.leb_le.
  - rewrite length_take. lia.
Qed.

Lemma strip_marker_length (chunk : list byte) :
  (length (strip_marker chunk) ≤ length chunk)%nat.
Proof.
  unfold strip_marker. case_bool_decide; [|done]. rewrite length_take. lia.
Qed.

(** What the loop keeps: [downloaded] grows by exactly what is written to
    the file, and stops less than one [recv] beyond the total. *)
Lemma receive_loop_count (total_size : Z) (s : socket) (st st' : loop_state)
  (exit : loop_exit) :
  receive_loop total_size s st = (exit, st') →
  (downloaded st' - downloaded st = Z.of_nat (length (file st')) - Z.of_nat (length (file st)))%Z
  ∧ (downloaded st' ≤ Z.max (downloaded st) (total_size - 1 + Z.of_nat CHUNK_SIZE))%Z.
Proof.
  funelim (receive_loop total_size s st); clear Heqcall;
    try (intros [= <- <-]; simpl; lia).
  intros [Hcount Hbound]%H. simpl in *.
  pose proof (recv_length _ _ _ _ e) as Hlen. simpl in Hlen.
  pose proof (strip_marker_length (b :: chunk0)) as Hstrip. simpl in Hstrip.
  apply Z.ltb_lt in Heq. rewrite length_app in Hcount. split; lia.
Qed.

(** When a download is reported complete, or fails because [recv] raised,
    the [with] block has closed the destination file, and
    [self.downloaded] is the number of bytes that file holds. *)
Theorem downloaded_counts_written_bytes (total_size : Z) (s : socket) (c : flag) :
  let r := transfer total_size s c in
  result r = Completed ∨ result r = Failed ConnectionResetError →
  ∃ written, dest r = Some written ∧ received r = Z.of_nat (length written).
Proof.
  unfold transfer.
  destruct (receive_loop _ _ _) as [exit st] eqn:Hloop.
  apply receive_loop_count in Hloop as [Hcount _]. simpl in Hcount.
  destruct exit as [|e|]; simpl.
  - destruct (read_cancelled (cancel st)) as [[] c']; simpl.
    + by intros [|].
    + intros _. exists (file st). split; [done|lia].
  - intros _. exists (file st). split; [done|lia].
  - by intros [|].
Qed.

(** [recv] is asked for [CHUNK_SIZE] bytes whatever is still expected, so
    the count can pass the total, but by less than [CHUNK_SIZE]. *)
Theorem downloaded_overshoot_bound (total_size : Z) (s : socket) (c : flag) :
  let r := transfer total_size s c in
  (0 ≤ received r ≤ Z.max 0 (total_size - 1 + Z.of_nat CHUNK_SIZE))%Z.
Proof.
  unfold transfer.
  destruct (receive_loop _ _ _) as [exit st] eqn:Hloop.
  pose proof (receive_loop_progress _ _ _ _ _ Hloop) as [Hmono _].
  apply receive_loop_count in Hloop as [_ Hbound]. simpl in *.
  destruct exit as [|e|]; simpl; [|lia..].
  destruct (read_cancelled (cancel st)) as [[] c']; simpl; lia.
Qed.

(** The values [update_progress] gets from inside the loop never decrease,
    and they lie between the count before and the count after the loop. *)
Theorem loop_progress_never_decreases (total_size : Z) (s : socket) (st : loop_state) :
  let st' := (receive_loop total_size s st).2 in
  (downloaded st ≤ downloaded st')%Z
  ∧ ∃ new, calls st' = calls st ++ new
      ∧ Sorted Z.le (reported new)
      ∧ Forall (λ d, downloaded st ≤ d ≤ downloaded st')%Z (reported new).
Proof.
  destruct (receive_loop total_size s st) as [exit st'] eqn:Hloop.
  by apply receive_loop_progress in Hloop.
Qed.

(** A cancel that is already set when the loop first tests it ends the
    download as cancelled before any [recv]: nothing is reported, and no
    file is left, whatever the connection holds. *)
Theorem cancel_before_first_recv (total_size : Z) (s : socket) :
  let r := transfer total_size s (Some 0) in
  result r = Cancelled ∧ dest r = None ∧ gui r = [RemoveDownload] ∧ received r = 0%Z.
Proof. unfold transfer. by simp receive_loop. Qed.

End LoopFacts.

(** ** The header line *)

Section HeaderFacts.
Import Py Client Spec.

Lemma first_line_app (line extra : list byte) :
  LF ∉ line → first_line (line ++ LF :: extra) = line.
Proof.
  induction line as [|b line IH]; intros Hline.
  - change (first_line ([] ++ LF :: extra))
      with (if bool_decide (LF = LF) then [] else LF :: first_line extra).
    by rewrite bool_decide_eq_true_2.
  - apply not_elem_of_cons in Hline as [Hb Hline].
    change (first_line ((b :: line) ++ LF :: extra))
      with (if bool_decide (b = LF) then [] else b :: first_line (line ++ LF :: extra)).
    rewrite bool_decide_eq_false_2 by done. by rewrite IH.
Qed.

Lemma recv_header_whole (segment : list byte) (s : socket) :
  LF ∈ segment → (length segment ≤ 1024)%nat →
  recv_header (Data segment :: s) [] = Header segment s.
Proof.
  intros HLF Hlen. rewrite recv_header_step.
  rewrite bool_decide_eq_false_2 by apply not_elem_of_nil.
  unfold recv. apply Nat.leb_le in Hlen. rewrite Hlen.
  destruct segment as [|b segment]; [by apply elem_of_nil in HLF|].
  rewrite recv_header_step, app_nil_l. by rewrite bool_decide_eq_true_2.
Qed.

(** What arrives in the same segment as the header line, behind its
    newline, is dropped: the download goes on as if the header had come
    alone, and the receive loop starts with the next segment. *)
Theorem bytes_behind_header_are_dropped (dest0 : option (list byte))
  (line extra : list byte) (s : socket) (c : flag) :
  LF ∉ line →
  (length (line ++ LF :: extra) ≤ 1024)%nat →
  _download dest0 (Data (line ++ LF :: extra) :: s) c
  = _download dest0 (Data (line ++ [LF]) :: s) c.
Proof.
  intros Hline Hlen. unfold _download.
  assert (length (line ++ [LF]) ≤ 1024)%nat as Hlen'
    by (rewrite length_app in *; simpl in *; lia).
  assert (LF ∈ line ++ LF :: extra) as HLF1 by (apply elem_of_app; right; left).
  assert (LF ∈ line ++ [LF]) as HLF2 by (apply elem_of_app; right; left).
  by rewrite !recv_header_whole, !first_line_app.
Qed.

(** *** The size the server writes is the size the client reads *)

Lemma encode_app (a b : string) : encode (a +:+ b) = encode a ++ encode b.
Proof.
  induction a as [|x a IH]; [done|].
  rewrite str_app_cons. unfold encode, list_byte_of_string in *. simpl. by rewrite IH.
Qed.

Lemma encode_length (a : string) : length (encode a) = String.length a.
Proof.
  induction a as [|x a IH]; [done|].
  unfold encode, list_byte_of_string in *. simpl. by rewrite IH.
Qed.

Lemma to_N_byte_of_ascii (c : ascii) : Byte.to_N (byte_of_ascii c) = N_of_ascii c.
Proof. apply Byte.to_of_N. symmetry. apply byte_of_ascii_via_N. Qed.

Lemma byte_of_ascii_LF (c : ascii) : byte_of_ascii c = LF → c = Py.LF.
Proof. intros H. by rewrite <- (ascii_of_byte_of_ascii c), H. Qed.

Lemma plain_decode (a : string) :
  plain a → decode (encode a) = Some a ∧ LF ∉ encode a.
Proof.
  unfold plain, decode, encode. intros Ha. split.
  - replace (forallb _ _) with true; [by rewrite string_of_list_byte_of_string|].
    symmetry. apply forallb_forall. intros b [c [<- Hc]]%in_map_iff.
    rewrite to_N_byte_of_ascii. rewrite Forall_forall in Ha.
    by apply Ha, list_elem_of_In.
  - intros [c [Hc Hin]]%list_elem_of_In%in_map_iff.
    rewrite Forall_forall in Ha. apply list_elem_of_In, Ha in Hin as [_ Hne].
    by apply byte_of_ascii_LF in Hc.
Qed.

Lemma is_digit_plain (c : ascii) :
  is_digit c = true → (N_of_ascii c <? 128)%N = true ∧ c ≠ Py.LF.
Proof. destruct c as [[] [] [] [] [] [] [] []]; by compute. Qed.

Lemma is_digit_not_space (c : ascii) : is_digit c = true → is_space c = false.
Proof. destruct c as [[] [] [] [] [] [] [] []]; by compute. Qed.

Lemma digits_only_plain (a : string) : digits_only a → plain a.
Proof.
  intros Ha. eapply Forall_impl; [exact Ha|]. intros c. apply is_digit_plain.
Qed.

Lemma pretty_N_char_digit (k : N) :
  (k < 10)%N →
  is_digit (pretty_N_char k) = true ∧ (N_of_ascii (pretty_N_char k) - 48)%N = k.
Proof.
  intros Hk.
  assert (k = 0 ∨ k = 1 ∨ k = 2 ∨ k = 3 ∨ k = 4 ∨ k = 5 ∨ k = 6 ∨ k = 7
          ∨ k = 8 ∨ k = 9)%N as Hcases by lia.
  by repeat destruct Hcases as [->|Hcases]; subst.
Qed.

Lemma pretty_N_go_digits (x : N) :
  ∀ s, digits_only s → digits_only (pretty_N_go x s) ∧ (s ≠ "" → pretty_N_go x s ≠ "").
Proof.
  induction (N.lt_wf_0 x) as [x _ IH]; intros s Hs.
  assert (x = 0 ∨ 0 < x)%N as [->|Hx] by lia; [by rewrite pretty_N_go_0|].
  rewrite pretty_N_go_step by done.
  destruct (IH (x `div` 10)%N) with (s := String (pretty_N_char (x `mod` 10)) s)
    as [H1 H2].
  - by apply N.div_lt.
  - constructor; [|done]. apply pretty_N_char_digit. by apply N.mod_lt.
  - split; [done|]. intros _. by apply H2.
Qed.

Lemma pretty_digits (n : N) : digits_only (str_of_N n) ∧ str_of_N n ≠ "".
Proof.
  unfold str_of_N, pretty, pretty_N. case_decide as Hn.
  - split; [|done]. by repeat constructor.
  - rewrite pretty_N_go_step by lia.
    destruct (pretty_N_go_digits (n `div` 10)%N (String (pretty_N_char (n `mod` 10)) ""))
      as [H1 H2].
    + constructor; [|constructor]. apply pretty_N_char_digit. by apply N.mod_lt.
    + split; [done|]. by apply H2.
Qed.

Lemma digits_pretty_N_go (x : N) :
  ∀ s, (0 < x)%N → digits (pretty_N_go x s) 0 false = digits s x true.
Proof.
  induction (N.lt_wf_0 x) as [x _ IH]; intros s Hx.
  rewrite pretty_N_go_step by done.
  destruct (pretty_N_char_digit (x `mod` 10)%N) as [Hd Hv]; [by apply N.mod_lt|].
  destruct (N.eq_0_gt_0_cases (x `div` 10)) as [Hq|Hq].
  - rewrite Hq, pretty_N_go_0. simpl. rewrite Hd, Hv.
    f_equal. pose proof (N.div_mod x 10). lia.
  - rewrite IH; [|by apply N.div_lt|done]. simpl. rewrite Hd, Hv.
    f_equal. pose proof (N.div_mod x 10). lia.
Qed.

Lemma digits_pretty (n : N) : digits (str_of_N n) 0 false = Some n.
Proof.
  unfold str_of_N, pretty, pretty_N. case_decide as Hn; [by subst|].
  by rewrite digits_pretty_N_go by lia.
Qed.

Lemma pretty_N_go_length (x : N) :
  ∀ s, (0 < x)%N →
       (String.length (pretty_N_go x s) ≤ String.length s + S (N.to_nat (N.log2 x)))%nat.
Proof.
  induction (N.lt_wf_0 x) as [x _ IH]; intros s Hx.
  rewrite pretty_N_go_step by done.
  destruct (N.eq_0_gt_0_cases (x `div` 10)) as [Hq|Hq].
  - rewrite Hq, pretty_N_go_0. simpl. lia.
  - etrans; [apply IH; [by apply N.div_lt|done]|]. simpl.
    assert (N.log2 (2 * (x `div` 10)) ≤ N.log2 x)%N as Hlog.
    { apply N.log2_le_mono. pose proof (N.Div0.mul_div_le x 10). lia. }
    rewrite N.log2_double in Hlog by done. lia.
Qed.

Lemma pretty_length (n : N) :
  (n < 2 ^ 64)%N → (String.length (str_of_N n) ≤ 65)%nat.
Proof.
  intros Hn. unfold str_of_N, pretty, pretty_N. case_decide as H0; [simpl; lia|].
  etrans; [apply pretty_N_go_length; lia|]. simpl.
  assert (N.log2 n < 64)%N by (apply N.log2_lt_pow2; lia). lia.
Qed.

Lemma rev_app_app (a b c : string) :
  String.rev_app (String.rev_app a b) c = String.rev_app b (a +:+ c).
Proof.
  revert b. induction a as [|x a IH]; intros b; [done|].
  simpl. rewrite IH. by rewrite str_app_cons.
Qed.

Lemma rev_involutive (a : string) : String.rev (String.rev a) = a.
Proof. unfold String.rev. by rewrite rev_app_app, str_app_nil_r. Qed.

Lemma rev_app_digits (a b : string) :
  digits_only a → digits_only b → digits_only (String.rev_app a b).
Proof.
  revert b. induction a as [|x a IH]; intros b Ha Hb; [done|].
  apply Forall_cons in Ha as [Hx Ha]. simpl. apply IH; [done|]. by constructor.
Qed.

Lemma lstrip_digits (a : string) : digits_only a → lstrip a = a.
Proof.
  destruct a as [|x a]; [done|]. intros [Hx _]%Forall_cons. simpl.
  by rewrite (is_digit_not_space _ Hx).
Qed.

Lemma strip_digits (a : string) : digits_only a → strip a = a.
Proof.
  intros Ha. unfold strip. rewrite (lstrip_digits a Ha).
  rewrite lstrip_digits; [apply rev_involutive|].
  apply rev_app_digits; [done|constructor].
Qed.

Lemma count_digits_length (a : string) : (count_digits a ≤ String.length a)%nat.
Proof. induction a as [|x a IH]; simpl; [done|]. case_match; lia. Qed.

Lemma int_digits (a : string) (n : N) :
  digits_only a → (String.length a ≤ 4300)%nat → digits a 0 false = Some n →
  int a = Int (Z.of_N n).
Proof.
  intros Ha Hlen Hn. unfold int.
  rewrite (strip_digits a Ha).
  assert (within_limit a (Z.of_N n) = Int (Z.of_N n)) as Hlimit.
  { unfold within_limit. pose proof (count_digits_length a).
    replace (4300 <? count_digits a)%nat with false
      by (symmetry; apply Nat.ltb_ge; lia).
    done. }
  destruct a as [|x a]; [done|].
  apply Forall_cons in Ha as [Hx _].
  destruct x as [[] [] [] [] [] [] [] []]; try discriminate Hx; by rewrite Hn.
Qed.

Lemma substring_all (a : string) : String.substring 0 (String.length a) a = a.
Proof. induction a as [|x a IH]; [done|]. simpl. by rewrite IH. Qed.

Lemma size_line (n : N) :
  (n < 2 ^ 64)%N →
  let line := "SIZE:" +:+ str_of_N n in
  plain line
  ∧ startswith line "ERROR" = false
  ∧ startswith line "SIZE:" = true
  ∧ int (str_from 5 line) = Int (Z.of_N n)
  ∧ (String.length line ≤ 70)%nat.
Proof.
  intros Hn line. destruct (pretty_digits n) as [Hdigits _].
  pose proof (pretty_length n Hn) as Hlen.
  split; [|split; [reflexivity|split; [|split]]].
  - unfold line, plain. rewrite !str_app_cons. repeat (constructor; [done|]).
    by apply digits_only_plain.
  - unfold line. by destruct (str_of_N n).
  - unfold line, str_from. rewrite !str_app_cons. simpl.
    rewrite Nat.sub_0_r. change ("" +:+ str_of_N n) with (str_of_N n).
    rewrite substring_all. apply int_digits; [done|lia|apply digits_pretty].
  - unfold line. rewrite str_length_app. simpl. lia.
Qed.

Lemma size_header_parsed (dest0 : option (list byte)) (n : N)
  (s : socket) (c : flag) :
  (n < 2 ^ 64)%N →
  _download dest0 (Data (encode ("SIZE:" +:+ str_of_N n +:+ nl)) :: s) c
  = transfer (Z.of_N n) s c.
Proof.
  intros Hn. destruct (size_line n Hn) as (Hplain & Herr & Hsize & Hint & Hlen).
  destruct (plain_decode _ Hplain) as [Hdecode HLF].
  unfold _download.
  rewrite <- str_app_assoc, encode_app.
  change (encode nl) with [LF].
  rewrite recv_header_whole, first_line_app, Hdecode, Herr, Hsize; [|done|..].
  - simpl. by rewrite Hint.
  - apply elem_of_app. right. left.
  - rewrite length_app, encode_length. change (length [LF]) with 1%nat. lia.
Qed.

(** The header the server writes for a size below [2^64], arriving whole,
    is read back by the client as that size: the download goes on with the
    transfer of that many bytes, and the destination is opened. *)
Theorem size_header_round_trip (dest0 : option (list byte)) (n : N)
  (s : socket) (c : flag) :
  (n < 2 ^ 64)%N →
  _download dest0 (Data (encode ("SIZE:" +:+ str_of_N n +:+ nl)) :: s) c
  = transfer (Z.of_N n) s c.
Proof. apply size_header_parsed. Qed.

End HeaderFacts.

(** ** A download from end to end *)

Section EndToEnd.
Import Py Client Spec.

Lemma strip_marker_without (chunk : list byte) :
  ¬ END_MARKER `suffix_of` chunk → strip_marker chunk = chunk.
Proof. intros H. unfold strip_marker. by rewrite bool_decide_eq_false_2. Qed.

Lemma recv_fitting (bufsize : nat) (segment : list byte) (s : socket) :
  (length segment ≤ bufsize)%nat → recv bufsize (Data segment :: s) = Chunk segment s.
Proof. intros H. unfold recv. by rewrite (proj2 (Nat.leb_le _ _) H). Qed.

(** Segments that fit a [recv] and do not end with the marker are written
    one after the other until the total is reached; what follows them is
    not read. *)
Lemma receive_loop_segments (total_size : Z) (rest : socket) (chunks : list (list byte)) :
  ∀ st,
    cancel st = None →
    Forall (λ chunk, (0 < length chunk ≤ CHUNK_SIZE)%nat
                     ∧ ¬ END_MARKER `suffix_of` chunk) chunks →
    total_size = (downloaded st + Z.of_nat (length (mjoin chunks)))%Z →
    ∃ st',
      receive_loop total_size ((Data <$> chunks) ++ rest) st = (LoopEnds, st')
      ∧ cancel st' = None
      ∧ downloaded st' = total_size
      ∧ file st' = file st ++ mjoin chunks.
Proof.
  induction chunks as [|chunk chunks IH]; intros st Hcancel Hchunks Htotal.
  - rewrite receive_loop_step, Hcancel. simpl in *.
    replace (downloaded st <? total_size)%Z with false by (symmetry; apply Z.ltb_ge; lia).
    eexists. split; [done|]. simpl. by rewrite app_nil_r, Htotal, Z.add_0_r.
  - apply Forall_cons in Hchunks as [[[Hpos Hfit] Hmarker] Hchunks].
    change (mjoin (chunk :: chunks)) with (chunk ++ mjoin chunks) in *.
    rewrite length_app in Htotal.
    rewrite receive_loop_step, Hcancel.
    change (read_cancelled None) with (false, @None nat).
    cbv beta iota zeta.
    replace (downloaded st <? total_size)%Z with true by (symmetry; apply Z.ltb_lt; lia).
    rewrite fmap_cons, <- app_comm_cons, (recv_fitting _ _ _ Hfit).
    destruct chunk as [|b chunk0]; [simpl in Hpos; lia|].
    rewrite (strip_marker_without _ Hmarker).
    match goal with
    | |- context [receive_loop _ _ ?st0] =>
        destruct (IH st0) as (st' & Hloop & Hc & Hd & Hf); [| exact Hchunks | | ]
    end.
    + reflexivity.
    + cbn [downloaded]. lia.
    + exists st'. rewrite Hloop. split; [done|]. split; [done|]. split; [done|].
      rewrite Hf. cbn [file]. by rewrite <- app_assoc.
Qed.

Lemma one_recv_per_send_download (header marker : list byte)
  (chunks : list (list byte)) :
  one_recv_per_send
    (Server.Bytes header :: (Server.Bytes <$> chunks) ++ [Server.Bytes marker])
  = Data header :: (Data <$> chunks) ++ [Data marker].
Proof.
  unfold one_recv_per_send. cbn. f_equal.
  induction chunks as [|c chunks IH]; cbn; [done|]. by f_equal.
Qed.

(** When every [sendall] of the server arrives as one [recv], a file below
    [2^64] bytes none of whose blocks, as [f.read(65536)] cuts them, ends
    with the bytes of [END\n] is stored as it is: the download completes,
    the destination holds the file's bytes, and the count is the total. *)
Theorem download_reproduces_file (dest0 : option (list byte))
  (fs : Server.filesystem) (full_path : string) (content : list byte)
  (out : list Server.sent) :
  fs full_path = Some (Server.File content) →
  (N.of_nat (length content) < 2 ^ 64)%N →
  Forall (λ chunk, ¬ END_MARKER `suffix_of` chunk)
    (Server.read_chunks Server.READ_SIZE content) →
  Server.send_download fs full_path = Server.Ok out →
  let r := _download dest0 (one_recv_per_send out) None in
  result r = Completed
  ∧ dest r = Some content
  ∧ total r = Z.of_nat (length content)
  ∧ received r = Z.of_nat (length content).
Proof.
  intros Hfile Hsize Hmarker Hout r. subst r.
  unfold Server.send_download, Server.getsize in Hout. rewrite Hfile in Hout.
  injection Hout as <-.
  rewrite one_recv_per_send_download.
  rewrite size_header_parsed by done.
  unfold transfer.
  destruct (receive_loop_segments (Z.of_N (N.of_nat (length content)))
              [Data Server.END_MARKER]
              (Server.read_chunks Server.READ_SIZE content)
              {| cancel := None; downloaded := 0; file := []; calls := [] |})
    as (st' & Hloop & Hc & Hd & Hf).
  - reflexivity.
  - pose proof (read_chunks_bounds Server.READ_SIZE content) as Hbounds.
    rewrite Forall_forall in *. intros chunk Hin. split; [|by apply Hmarker].
    by apply Hbounds.
  - rewrite read_chunks_concat by apply READ_SIZE_pos. cbn [downloaded]. lia.
  - rewrite Hloop, Hc. cbn. rewrite Hd, Hf.
    rewrite read_chunks_concat by apply READ_SIZE_pos.
    repeat split; lia.
Qed.

End EndToEnd.

(** ** The registry over any history *)

Section RegistryHistory.
Import Py Gui.

(** In every state the GUI can reach, what the two dicts hold exists, and
    no downloader or widget is registered under two paths. *)
Theorem registry_well_formed (ops : list op) : wf (run ops init).
Proof. apply wf_run, wf_init. Qed.

(** [remove_download] may be called again for the same path, as the
    [finally] clause does after an error header: the second call changes
    nothing. *)
Theorem remove_download_idempotent (p : string) (g : ClientGUI) :
  remove_download p (remove_download p g) = remove_download p g.
Proof.
  assert (∀ g', progress_widgets g' !! p = None → downloaders g' !! p = None →
                remove_download p g' = g') as Hnoop.
  { intros g' H1 H2. unfold remove_download. by rewrite H1, H2. }
  apply Hnoop; unfold remove_download;
    destruct (progress_widgets g !! p) as [w|] eqn:Hpw; simpl;
    destruct (downloaders g !! p) as [d|] eqn:Hdl; simpl;
    by rewrite ?lookup_delete_eq.
Qed.

(** Progress that a download reports after it was cancelled or removed is
    ignored. *)
Theorem progress_after_cancel_is_ignored (p : string) (d t : Z) (g : ClientGUI) :
  update_progress p d t (cancel_download p g) = cancel_download p g
  ∧ update_progress p d t (remove_download p g) = remove_download p g.
Proof.
  assert (∀ g', progress_widgets (remove_download p g') !! p = None) as Hgone.
  { intros g'. unfold remove_download.
    destruct (progress_widgets g' !! p) as [w|] eqn:Hpw; simpl;
      destruct (downloaders g' !! p) as [d'|] eqn:Hdl; simpl;
      by rewrite ?lookup_delete_eq. }
  split; unfold update_progress, cancel_download; by rewrite Hgone.
Qed.

Lemma remove_download_lookup (p q : string) (g : ClientGUI) :
  downloaders (remove_download p g) !! q
  = (if decide (p = q) then None else downloaders g !! q)
  ∧ progress_widgets (remove_download p g) !! q
    = (if decide (p = q) then None else progress_widgets g !! q)
  ∧ objects (remove_download p g) = objects g.
Proof.
  unfold remove_download.
  destruct (progress_widgets g !! p) as [w|] eqn:Hpw; simpl;
    destruct (downloaders g !! p) as [d|] eqn:Hdl; simpl;
    rewrite ?lookup_delete; repeat case_decide; subst; done.
Qed.

(** [cancel_download] sets the flag of the downloader registered for the
    path and takes the path out of both dicts; the other paths and the
    other downloaders stay as they are. *)
Theorem cancel_download_effect (p : string) (d : nat) (o : Downloader) (g : ClientGUI) :
  downloaders g !! p = Some d →
  objects g !! d = Some o →
  let g' := cancel_download p g in
  objects g' !! d = Some (cancel o)
  ∧ downloaders g' !! p = None
  ∧ progress_widgets g' !! p = None
  ∧ (∀ q, q ≠ p → downloaders g' !! q = downloaders g !! q
                 ∧ progress_widgets g' !! q = progress_widgets g !! q)
  ∧ (∀ d', d' ≠ d → objects g' !! d' = objects g !! d').
Proof.
  intros Hp Hd g'. subst g'. unfold cancel_download. rewrite Hp.
  match goal with |- context [remove_download p ?g1] =>
    pose proof (λ q, remove_download_lookup p q g1) as Hlook end.
  simpl in Hlook.
  split; [|split; [|split; [|split]]].
  - rewrite (proj2 (proj2 (Hlook p))). by rewrite lookup_alter_eq, Hd.
  - rewrite (proj1 (Hlook p)). by rewrite decide_True.
  - rewrite (proj1 (proj2 (Hlook p))). by rewrite decide_True.
  - intros q Hq. rewrite (proj1 (Hlook q)), (proj1 (proj2 (Hlook q))).
    by rewrite !decide_False.
  - intros d' Hd'. rewrite (proj2 (proj2 (Hlook p))). by rewrite lookup_alter_ne.
Qed.

Lemma step_keeps_cancelled (d : nat) (g : ClientGUI) (o : op) :
  cancelled <$> objects g !! d = Some true →
  cancelled <$> objects (step g o) !! d = Some true.
Proof.
  intros Hd.
  assert (is_Some (objects g !! d)) as Hsome
    by (destruct (objects g !! d); [by eexists|done]).
  destruct o as [selection save|p dl t|p|p|path]; simpl; try done.
  - unfold start_download. destruct selection as [name|]; [|done].
    destruct (String.eqb save ""); [done|]. simpl.
    rewrite lookup_insert_ne; [done|]. by apply fresh_object.
  - unfold update_progress. by destruct (progress_widgets g !! p).
  - unfold cancel_download.
    rewrite (proj2 (proj2 (remove_download_lookup p p _))).
    destruct (downloaders g !! p) as [d'|]; [|done]. simpl.
    rewrite lookup_alter. case_decide; [|done]. subst.
    by destruct (objects g !! d) as [[? ? []]|].
  - by rewrite (proj2 (proj2 (remove_download_lookup p p _))).
Qed.

(** The [cancelled] flag goes one way: a downloader that is cancelled
    stays cancelled whatever the GUI does afterwards. *)
Theorem cancelled_stays_cancelled (d : nat) (ops : list op) (g : ClientGUI) :
  cancelled <$> objects g !! d = Some true →
  cancelled <$> objects (run ops g) !! d = Some true.
Proof.
  unfold run. revert g. induction ops as [|o ops IH]; intros g Hd; [done|].
  simpl. by apply IH, step_keeps_cancelled.
Qed.

Lemma remove_download_started (p : string) (g : ClientGUI) :
  started (remove_download p g) = started g.
Proof.
  unfold remove_download.
  by destruct (progress_widgets g !! p); simpl; destruct (downloaders g !! p).
Qed.

Lemma threads_started_remove_download (p : string) (g : ClientGUI) :
  threads_started g → threads_started (remove_download p g).
Proof.
  intros [Hnodup Hexist Hreg].
  pose proof (λ q, remove_download_lookup p q g) as Hlook.
  split; rewrite ?remove_download_started; [done| |].
  - intros d Hd. rewrite (proj2 (proj2 (Hlook p))). by apply Hexist.
  - intros q d. rewrite (proj1 (Hlook q)). case_decide; [done|]. apply Hreg.
Qed.

Lemma threads_started_step (g : ClientGUI) (o : op) :
  threads_started g → threads_started (step g o).
Proof.
  intros Hth. pose proof Hth as [Hnodup Hexist Hreg].
  destruct o as [selection save|p dl t|p|p|path]; simpl.
  - unfold start_download. destruct selection as [name|]; [|done].
    destruct (String.eqb save ""); [done|]. split; simpl.
    + apply NoDup_app. split; [done|]. split; [|apply NoDup_singleton].
      intros d Hd ->%list_elem_of_singleton.
      by apply (fresh_object g _ (Hexist _ Hd)).
    + intros d [Hd| ->%list_elem_of_singleton]%elem_of_app.
      * rewrite lookup_insert_ne; [by apply Hexist|].
        by apply fresh_object, Hexist.
      * rewrite lookup_insert_eq. by eexists.
    + intros q d. rewrite lookup_insert. case_decide.
      * intros [= <-]. apply elem_of_app. right. by apply list_elem_of_singleton.
      * intros Hq. apply elem_of_app. left. by eapply Hreg.
  - unfold update_progress. by destruct (progress_widgets g !! p).
  - unfold cancel_download. apply threads_started_remove_download.
    destruct (downloaders g !! p) as [d0|] eqn:Hdl; [|done].
    split; simpl; [done| |done].
    intros d [x Hx]%Hexist. rewrite lookup_alter. case_decide; subst; rewrite Hx; by eexists.
  - by apply threads_started_remove_download.
  - by split.
Qed.

(** Whatever the history, [start()] was called once for each downloader,
    and every downloader in the registry has its thread started. *)
Theorem registered_downloads_are_started (ops : list op) :
  threads_started (run ops init).
Proof.
  assert (∀ g, threads_started g → threads_started (run ops g)) as Hrun.
  { unfold run. induction ops as [|o ops IH]; intros g Hth; [done|].
    simpl. by apply IH, threads_started_step. }
  apply Hrun. split; simpl.
  - constructor.
  - intros d Hd. by apply elem_of_nil in Hd.
  - intros p d. by rewrite lookup_empty.
Qed.

End RegistryHistory.

(** ** Browsing *)

Section BrowsingFacts.
Import Py Gui Spec.

Lemma rstrip_slash_cons (a : ascii) (s : string) :
  rstrip_slash (String a s)
  = match rstrip_slash s with
    | "" => if Ascii.eqb a "/" then "" else String a ""
    | r => String a r
    end.
Proof. reflexivity. Qed.

Lemma rfind_cons (a : ascii) (s : string) :
  rfind "/" (String a s)
  = if (0 <=? rfind "/" s)%Z then (rfind "/" s + 1)%Z
    else if Ascii.eqb a "/" then 0%Z else (-1)%Z.
Proof. reflexivity. Qed.

Lemma rfind_lower (s : string) : (-1 ≤ rfind "/" s)%Z.
Proof.
  induction s as [|a s IH]; [done|]. rewrite rfind_cons.
  destruct (0 <=? rfind "/" s)%Z eqn:H; [apply Z.leb_le in H; lia|].
  by destruct (Ascii.eqb a "/").
Qed.

Lemma component_cons (a : ascii) (s : string) :
  component (String a s) → a ≠ "/"%char ∧ rfind "/" s = (-1)%Z.
Proof.
  intros [_ H]. rewrite rfind_cons in H. pose proof (rfind_lower s).
  destruct (0 <=? rfind "/" s)%Z eqn:Hs; [apply Z.leb_le in Hs; lia|].
  apply Z.leb_gt in Hs.
  destruct (Ascii.eqb_spec a "/"); [done|]. split; [done|lia].
Qed.

Lemma rstrip_slash_free (c : string) :
  rfind "/" c = (-1)%Z → rstrip_slash c = c.
Proof.
  induction c as [|a c IH]; [done|]. intros H.
  assert (c = "" ∨ c ≠ "") as [->|Hc] by (destruct c; auto).
  - rewrite rfind_cons in H. simpl in H. rewrite rstrip_slash_cons. simpl.
    by destruct (Ascii.eqb a "/").
  - destruct (component_cons a c) as [Ha Hfree]; [by split|].
    rewrite rstrip_slash_cons, (IH Hfree). by destruct c.
Qed.

Lemma rstrip_slash_app (x y : string) :
  rstrip_slash y ≠ "" → rstrip_slash (x +:+ y) = x +:+ rstrip_slash y.
Proof.
  intros Hy. induction x as [|a x IH]; [done|].
  rewrite !str_app_cons, rstrip_slash_cons, IH.
  destruct (x +:+ rstrip_slash y) eqn:Hx; [|done].
  destruct x; [|done]. by destruct Hy.
Qed.

Lemma rstrip_slash_app_slash (x : string) :
  rstrip_slash (x +:+ "/") = rstrip_slash x.
Proof.
  induction x as [|a x IH]; [done|].
  by rewrite str_app_cons, !rstrip_slash_cons, IH.
Qed.

Lemma rstrip_slash_component (x c : string) :
  component c → rstrip_slash (x +:+ c) = x +:+ c.
Proof.
  intros [Hne Hfree]. rewrite rstrip_slash_app; rewrite (rstrip_slash_free c Hfree); done.
Qed.

Lemma replace_dslash_other (a : ascii) (s : string) :
  a ≠ "/"%char → replace_dslash (String a s) = String a (replace_dslash s).
Proof. intros Ha. destruct a as [[] [] [] [] [] [] [] []]; done. Qed.

Lemma replace_dslash_single (s : string) :
  startswith s "/" = false →
  replace_dslash (String "/" s) = String "/" (replace_dslash s).
Proof.
  destruct s as [|b s]; [done|]. unfold startswith. simpl.
  destruct (ascii_dec "/" b) as [<-|Hb]; [by destruct s|]. intros _.
  destruct b as [[] [] [] [] [] [] [] []]; done.
Qed.

Lemma replace_dslash_free (c y : string) :
  rfind "/" c = (-1)%Z → replace_dslash (c +:+ y) = c +:+ replace_dslash y.
Proof.
  induction c as [|a c IH]; [done|]. intros H.
  assert (a ≠ "/"%char ∧ rfind "/" c = (-1)%Z) as [Ha Hc].
  { rewrite rfind_cons in H. pose proof (rfind_lower c).
    destruct (0 <=? rfind "/" c)%Z eqn:Hs; [apply Z.leb_le in Hs; lia|].
    apply Z.leb_gt in Hs. destruct (Ascii.eqb_spec a "/"); [done|].
    split; [done|lia]. }
  by rewrite !str_app_cons, replace_dslash_other, IH.
Qed.

Lemma component_start (c y : string) :
  component c → startswith (c +:+ y) "/" = false.
Proof.
  intros Hc. destruct c as [|a c]; [by destruct Hc|].
  apply component_cons in Hc as [Ha _]. rewrite str_app_cons.
  destruct a as [[] [] [] [] [] [] [] []]; done.
Qed.

Lemma replace_dslash_dirs (comps : list string) (rest : string) :
  Forall component comps →
  startswith rest "/" = false → replace_dslash rest = rest →
  replace_dslash (dirs comps +:+ rest) = dirs comps +:+ rest
  ∧ startswith (dirs comps +:+ rest) "/" = false.
Proof.
  intros Hcomps Hstart Hrest.
  induction Hcomps as [|c comps Hc _ [IH1 IH2]]; [done|].
  cbn [dirs]. rewrite !str_app_assoc. split; [|by apply component_start].
  rewrite replace_dslash_free by apply Hc.
  change ("/" +:+ ?x) with (String "/" x).
  by rewrite replace_dslash_single, IH1.
Qed.

Lemma replace_dslash_path (comps : list string) (rest : string) :
  Forall component comps →
  startswith rest "/" = false → replace_dslash rest = rest →
  replace_dslash (path_of comps +:+ rest) = path_of comps +:+ rest.
Proof.
  intros Hcomps Hstart Hrest. unfold path_of.
  destruct (replace_dslash_dirs comps rest Hcomps Hstart Hrest) as [H1 H2].
  rewrite str_app_assoc. change ("/" +:+ ?x) with (String "/" x).
  by rewrite replace_dslash_single, H1.
Qed.

Lemma dirs_snoc (comps : list string) (c : string) :
  dirs (comps ++ [c]) = dirs comps +:+ c +:+ "/".
Proof.
  induction comps as [|c' comps IH]; simpl.
  - by rewrite str_app_nil_r.
  - by rewrite IH, !str_app_assoc.
Qed.

Lemma path_of_snoc (comps : list string) (c : string) :
  path_of (comps ++ [c]) = path_of comps +:+ c +:+ "/".
Proof. unfold path_of. by rewrite dirs_snoc, !str_app_assoc. Qed.

Lemma list_directory_path_fixed (comps : list string) :
  Forall component comps → list_directory_path (path_of comps) = path_of comps.
Proof.
  intros Hcomps. unfold list_directory_path.
  rewrite <- (str_app_nil_r (path_of comps)) at 1.
  rewrite replace_dslash_path, str_app_nil_r by done.
  destruct (decide (comps = [])) as [->|Hne]; [done|].
  destruct (exists_last Hne) as (comps' & c & ->).
  apply Forall_app in Hcomps as [_ [Hc _]%Forall_cons].
  rewrite path_of_snoc, <- str_app_assoc, rstrip_slash_app_slash.
  by rewrite rstrip_slash_component.
Qed.

Lemma substring_prefix (x y : string) :
  String.substring 0 (String.length x) (x +:+ y) = x.
Proof.
  induction x as [|a x IH]; [by destruct y|].
  rewrite str_app_cons. simpl. by rewrite IH.
Qed.

Lemma substring_skip (x y : string) (n : nat) :
  String.substring (String.length x) n (x +:+ y) = String.substring 0 n y.
Proof. induction x as [|a x IH]; [done|]. by rewrite str_app_cons. Qed.

Lemma rfind_app (x y : string) :
  (0 ≤ rfind "/" y)%Z →
  rfind "/" (x +:+ y) = (Z.of_nat (String.length x) + rfind "/" y)%Z.
Proof.
  intros Hy. induction x as [|a x IH]; [done|].
  rewrite str_app_cons, rfind_cons, IH.
  replace (0 <=? _)%Z with true by (symmetry; apply Z.leb_le; lia).
  simpl String.length. lia.
Qed.

Lemma rfind_slash_free (c : string) :
  rfind "/" c = (-1)%Z → rfind "/" ("/" +:+ c) = 0%Z.
Proof. intros H. change ("/" +:+ c) with (String "/" c). by rewrite rfind_cons, H. Qed.

Lemma dirname_head (x c : string) :
  rfind "/" c = (-1)%Z →
  dirname (x +:+ "/" +:+ c)
  = if all_sep (x +:+ "/") then x +:+ "/" else rstrip_slash x.
Proof.
  intros Hc. unfold dirname.
  rewrite rfind_app by (rewrite rfind_slash_free; [done|done]).
  rewrite rfind_slash_free by done.
  replace (Z.to_nat (Z.of_nat (String.length x) + 0 + 1))
    with (String.length (x +:+ "/")) by (rewrite str_length_app; simpl; lia).
  rewrite <- str_app_assoc, substring_prefix.
  destruct (all_sep (x +:+ "/")) eqn:Hall.
  - by rewrite andb_false_r.
  - replace (String.eqb (x +:+ "/") "") with false
      by (symmetry; apply String.eqb_neq; by destruct x).
    simpl. apply rstrip_slash_app_slash.
Qed.

Lemma endswith_slash (x : string) : endswith (x +:+ "/") "/" = true.
Proof.
  unfold endswith. rewrite str_length_app. simpl String.length.
  replace (1 <=? String.length x + 1)%nat with true by (symmetry; apply Nat.leb_le; lia).
  replace (String.length x + 1 - 1)%nat with (String.length x) by lia.
  by rewrite substring_skip.
Qed.

Lemma all_sep_path (comps : list string) :
  Forall component comps → all_sep (path_of comps) = bool_decide (comps = []).
Proof.
  intros Hcomps. destruct Hcomps as [|c comps' Hc _]; [done|].
  destruct c as [|a c]; [by destruct Hc|].
  apply component_cons in Hc as [Ha _].
  unfold path_of. simpl. rewrite !str_app_cons. simpl.
  by destruct (Ascii.eqb_spec a "/").
Qed.

Lemma path_of_stem (comps : list string) (c : string) :
  component c → rstrip_slash (path_of (comps ++ [c])) = path_of comps +:+ c.
Proof.
  intros Hc. rewrite path_of_snoc, <- str_app_assoc, rstrip_slash_app_slash.
  by apply rstrip_slash_component.
Qed.

Lemma path_of_split (comps : list string) :
  Forall component comps →
  path_of comps = rstrip_slash (path_of comps) +:+ "/"
  ∧ (comps ≠ [] → rstrip_slash (rstrip_slash (path_of comps)) = rstrip_slash (path_of comps)).
Proof.
  intros Hcomps. destruct (decide (comps = [])) as [->|Hne]; [done|].
  destruct (exists_last Hne) as (comps' & c & ->).
  apply Forall_app in Hcomps as [_ [Hc _]%Forall_cons].
  rewrite (path_of_stem comps' c Hc). split.
  - by rewrite path_of_snoc, str_app_assoc.
  - intros _. by apply rstrip_slash_component.
Qed.

Lemma path_of_not_slashes (comps : list string) (c : string) :
  Forall component comps → component c →
  path_of (comps ++ [c]) ≠ "/" ∧ path_of (comps ++ [c]) ≠ "//".
Proof.
  intros Hcomps Hc.
  assert (Forall component (comps ++ [c])) as Hall
    by (apply Forall_app; split; [done|by constructor]).
  destruct (comps ++ [c]) as [|c' comps'] eqn:Heq; [by destruct comps|].
  apply Forall_cons in Hall as [Hc' _].
  destruct c' as [|a c']; [by destruct Hc'|].
  apply component_cons in Hc' as [Ha _].
  unfold path_of. cbn [dirs]. rewrite !str_app_cons.
  split; [done|]. intros [= Heq' _]. by destruct Ha.
Qed.

(** Opening a directory of the listing and going back leads to where one
    was: from the path shown for the components [comps], a double click on
    the row [c/] lists the path of [comps] followed by [c], and [go_back]
    from there lists the path of [comps] again. *)
Theorem go_back_undoes_double_click (comps : list string) (c : string) :
  Forall component comps → component c →
  on_double_click_path (path_of comps) (c +:+ "/") = Some (path_of (comps ++ [c]))
  ∧ go_back_path (path_of (comps ++ [c])) = Some (path_of comps).
Proof.
  intros Hcomps Hc. pose proof Hc as [Hne Hfree].
  split.
  - unfold on_double_click_path. rewrite endswith_slash.
    rewrite rstrip_slash_app_slash, (rstrip_slash_free c Hfree).
    f_equal. unfold list_directory_path.
    rewrite replace_dslash_path;
      [|done|by rewrite <- (str_app_nil_r c); apply component_start|].
    + rewrite rstrip_slash_component by done. by rewrite path_of_snoc, str_app_assoc.
    + rewrite <- (str_app_nil_r c) at 1.
      by rewrite replace_dslash_free, str_app_nil_r.
  - destruct (path_of_not_slashes comps c Hcomps Hc) as [Hne1 _].
    destruct (path_of_split comps Hcomps) as [Hsplit Hstem].
    unfold go_back_path.
    rewrite (proj2 (String.eqb_neq _ _) Hne1). cbn [negb]. f_equal.
    rewrite (path_of_stem comps c Hc).
    rewrite Hsplit, str_app_assoc, (dirname_head _ c Hfree), <- Hsplit.
    rewrite (all_sep_path comps Hcomps).
    case_bool_decide as Hempty.
    + by subst comps.
    + rewrite (Hstem Hempty), <- Hsplit.
      destruct (exists_last Hempty) as (comps' & c' & ->).
      apply Forall_app in Hcomps as [Hcomps' [Hc' _]%Forall_cons].
      destruct (path_of_not_slashes comps' c' Hcomps' Hc') as [_ Hne2].
      rewrite (proj2 (String.eqb_neq _ _) Hne2).
      apply list_directory_path_fixed.
      apply Forall_app. split; [done|by constructor].
Qed.

End BrowsingFacts.

(** ** The further properties on concrete inputs *)

Section FurtherCases.
Import Py Server Spec Fixtures.

(** The listing of a folder with a file [a] and an entry [locked] whose
    [stat] is refused. *)
Lemma get_listing_errors_witness :
  safe_join ROOT "." = Some "/srv/share"
  ∧ "/srv/share" ≠ ""
  ∧ isdir guarded "/srv/share" = true
  ∧ listdir guarded "/srv/share" = Ok ["locked"; "a"]
  ∧ get_listing ROOT guarded "." = Ok (RespError "Permission denied").
Proof.
  split; [reflexivity|]. split; [discriminate|]. split; [reflexivity|].
  split; [reflexivity|].
  destruct (get_listing_errors ROOT guarded "." "/srv/share")
    as (_ & Hchild & _); [reflexivity|discriminate|reflexivity|].
  apply (Hchild ["locked"; "a"] ["a"] "locked" []); try reflexivity.
  constructor; [|constructor].
  exists {| name := "a"; size := "5.0 B"; is_dir := false |}.
  exists (encode "hello"). split; [by left|reflexivity].
Defined.

(** A folder whose only child is gone: FileNotFoundError leaves
    [get_listing], and the connection is closed without an answer. *)
Example vanished_child_closes_connection :
  get_listing ROOT vanishing "." = Raise FileNotFoundError
  ∧ handle_client ROOT vanishing [LIST "."; LIST "."] = ([], Crashed FileNotFoundError).
Proof. split; reflexivity. Qed.

(** The download of the file [sealed], followed by another frame. *)
Lemma unreadable_download_closes_connection_witness :
  download_request (DOWNLOAD "sealed") "sealed"
  ∧ safe_join ROOT "sealed" = Some "/srv/share/sealed"
  ∧ "/srv/share/sealed" ≠ ""
  ∧ guarded "/srv/share/sealed" = Some (Unreadable (encode "hello"))
  ∧ handle_client ROOT guarded [DOWNLOAD "sealed"; LIST "."]
    = ([Bytes (encode ("SIZE:" +:+ str_of_N (N.of_nat (length (encode "hello"))) +:+ nl))],
       Crashed PermissionError).
Proof.
  split; [by eexists|]. split; [reflexivity|]. split; [discriminate|].
  split; [reflexivity|].
  apply (unreadable_download_closes_connection ROOT guarded (DOWNLOAD "sealed")
           "sealed" "/srv/share/sealed" (encode "hello") [LIST "."]);
    [by eexists|reflexivity|discriminate|reflexivity].
Defined.

Lemma human_readable_size_bytes_witness :
  (1023 < 1024)%N ∧ human_readable_size 1023 = str_of_N 1023 +:+ ".0 B".
Proof. split; [reflexivity|]. apply (human_readable_size_bytes 1023). reflexivity. Defined.

(** From [2^53] bytes on the size is rounded to a double before it is
    divided: one byte more than 12.25 PiB is shown as [12.2], and three
    bytes more as [12.3]. *)
Example human_readable_size_rounds_to_double :
  to_float 13792273858822145 = 13792273858822144%N
  ∧ human_readable_size 13792273858822145 = "12.2 PiB"
  ∧ human_readable_size 13792273858822147 = "12.3 PiB".
Proof. repeat split; vm_compute; reflexivity. Qed.

(** One byte short of 1 MiB is shown as 1024.0 KiB. *)
Lemma human_readable_size_mantissa_witness :
  (1024 ≤ 1048575 < 1024 ^ 5)%N
  ∧ ∃ tenths unit,
      human_readable_size 1048575
      = str_of_N (tenths / 10) +:+ "." +:+ str_of_N (tenths mod 10) +:+ " " +:+ unit +:+ "B"
      ∧ (10 ≤ tenths ≤ 10240)%N
      ∧ unit ∈ ["Ki"; "Mi"; "Gi"; "Ti"].
Proof.
  assert (1024 ≤ 1048575 < 1024 ^ 5)%N as H by (split; [by vm_compute|reflexivity]).
  split; [exact H|]. exact (human_readable_size_mantissa 1048575 H).
Defined.

Lemma posix_absolute_logical_path_witness :
  startswith "/srv/share/docs" "/" = true
  ∧ safe_join (os_path := PosixPath.os_path "/home") "/srv/share" "/srv/share/docs"
    = if startswith (PosixPath.abspath "/home" (PosixPath.normpath "/srv/share/docs"))
           (PosixPath.abspath "/home" "/srv/share")
      then Some (PosixPath.normpath "/srv/share/docs")
      else None.
Proof.
  split; [reflexivity|].
  apply (posix_absolute_logical_path "/home" "/srv/share" "/srv/share/docs").
  reflexivity.
Defined.

(** A LIST without a path, against the root [/srv/share]. *)
Lemma posix_listing_of_slash_refused_witness :
  let fr := Cmd (JObj [("type", JStr "LIST")]) in
  list_request fr "/"
  ∧ PosixPath.abspath "/" "/srv/share" ≠ "/"
  ∧ handle_client (os_path := PosixPath.os_path "/") ROOT tree [fr; BadJson]
    = (Json (RespError "Access denied")
         :: (handle_client (os_path := PosixPath.os_path "/") ROOT tree [BadJson]).1,
       (handle_client (os_path := PosixPath.os_path "/") ROOT tree [BadJson]).2).
Proof.
  assert (list_request (Cmd (JObj [("type", JStr "LIST")])) "/") as Hreq.
  { by eexists. }
  assert (PosixPath.abspath "/" "/srv/share" ≠ "/") as Hroot by discriminate.
  split; [exact Hreq|]. split; [exact Hroot|].
  exact (posix_listing_of_slash_refused "/" ROOT tree _ [BadJson] Hreq Hroot).
Defined.

End FurtherCases.

Section FurtherClientCases.
Import Py Client Spec Fixtures.

(** [int] strips blanks, tabs and line ends, and refuses the separator
    characters 28 to 31. *)
Example int_white_space :
  int (" 12" +:+ nl) = Int 12
  ∧ int (String "028" (String "3" (String "031" ""))) = IntValueError.
Proof. split; reflexivity. Qed.

(** Three bytes of ten, then a reset. *)
Lemma downloaded_counts_written_bytes_witness :
  let r := transfer 10 [Data (encode "abc"); PeerReset] None in
  (result r = Completed ∨ result r = Failed ConnectionResetError)
  ∧ ∃ written, dest r = Some written ∧ received r = Z.of_nat (length written).
Proof.
  intros r. assert (result r = Completed ∨ result r = Failed ConnectionResetError) as H
    by (right; reflexivity).
  split; [exact H|].
  exact (downloaded_counts_written_bytes 10 [Data (encode "abc"); PeerReset] None H).
Defined.

(** The header and the two bytes of the file in one segment: the client
    then waits for two bytes that were already delivered. *)
Lemma bytes_behind_header_are_dropped_witness :
  (LF ∉ encode "SIZE:2")
  ∧ (length (encode "SIZE:2" ++ LF :: encode "ab") ≤ 1024)%nat
  ∧ _download None [Data (encode "SIZE:2" ++ LF :: encode "ab")] None
    = _download None [Data (encode "SIZE:2" ++ [LF])] None.
Proof.
  assert (LF ∉ encode "SIZE:2") as Hline.
  { apply (bool_decide_unpack _). by vm_compute. }
  assert (length (encode "SIZE:2" ++ LF :: encode "ab") ≤ 1024)%nat as Hlen.
  { apply Nat.leb_le. by vm_compute. }
  split; [exact Hline|]. split; [exact Hlen|].
  exact (bytes_behind_header_are_dropped None (encode "SIZE:2") (encode "ab") [] None
           Hline Hlen).
Defined.

Lemma size_header_round_trip_witness :
  (5 < 2 ^ 64)%N
  ∧ _download None (Data (encode ("SIZE:" +:+ str_of_N 5 +:+ nl)) :: [Data (encode "hello")]) None
    = transfer (Z.of_N 5) [Data (encode "hello")] None.
Proof.
  split; [reflexivity|].
  apply (size_header_round_trip None 5 [Data (encode "hello")] None). reflexivity.
Defined.

(** The file [hello], served from [/srv/share/f]. *)
Lemma download_reproduces_file_witness :
  let content := encode "hello" in
  let out := [Server.Bytes (encode ("SIZE:5" +:+ nl)); Server.Bytes content;
              Server.Bytes Server.END_MARKER] in
  let r := _download None (one_recv_per_send out) None in
  single content "/srv/share/f" = Some (Server.File content)
  ∧ (N.of_nat (length content) < 2 ^ 64)%N
  ∧ Forall (λ chunk, ¬ END_MARKER `suffix_of` chunk)
      (Server.read_chunks Server.READ_SIZE content)
  ∧ Server.send_download (single content) "/srv/share/f" = Server.Ok out
  ∧ result r = Completed
  ∧ dest r = Some content
  ∧ total r = Z.of_nat (length content)
  ∧ received r = Z.of_nat (length content).
Proof.
  intros content out r.
  assert (Forall (λ chunk, ¬ END_MARKER `suffix_of` chunk)
            (Server.read_chunks Server.READ_SIZE content)) as Hmarker.
  { apply (bool_decide_unpack _). by vm_compute. }
  split; [reflexivity|]. split; [reflexivity|]. split; [exact Hmarker|].
  split; [reflexivity|].
  exact (download_reproduces_file None (single content) "/srv/share/f" content out
           eq_refl eq_refl Hmarker eq_refl).
Defined.

End FurtherClientCases.

Section FurtherRegistryCases.
Import Py Gui Spec Fixtures.

Lemma cancel_download_effect_witness :
  let g := run [StartDownload (Some "a.bin") "/tmp/a.bin";
                StartDownload (Some "b.bin") "/tmp/b.bin"] init in
  let o := {| file_path := "/a.bin"; save_path := "/tmp/a.bin"; cancelled := false |} in
  let g' := cancel_download "/a.bin" g in
  downloaders g !! "/a.bin" = Some 0
  ∧ objects g !! 0 = Some o
  ∧ objects g' !! 0 = Some (cancel o)
  ∧ downloaders g' !! "/a.bin" = None
  ∧ progress_widgets g' !! "/a.bin" = None
  ∧ (∀ q, q ≠ "/a.bin" → downloaders g' !! q = downloaders g !! q
                          ∧ progress_widgets g' !! q = progress_widgets g !! q)
  ∧ (∀ d', d' ≠ 0 → objects g' !! d' = objects g !! d').
Proof.
  intros g o g'. split; [reflexivity|]. split; [reflexivity|].
  exact (cancel_download_effect "/a.bin" 0 o g eq_refl eq_refl).
Defined.

Lemma cancelled_stays_cancelled_witness :
  let g := run [StartDownload (Some "a.bin") "/tmp/a.bin"; CancelDownload "/a.bin"] init in
  let later := [StartDownload (Some "a.bin") "/tmp/again.bin"; UpdateProgress "/a.bin" 1 2;
                RemoveDownload "/a.bin"] in
  cancelled <$> objects g !! 0 = Some true
  ∧ cancelled <$> objects (run later g) !! 0 = Some true.
Proof.
  intros g later. split; [reflexivity|].
  apply (cancelled_stays_cancelled 0 later g). reflexivity.
Defined.

(** From [/a/] into [b/] and back. *)
Lemma go_back_undoes_double_click_witness :
  Forall component ["a"]
  ∧ component "b"
  ∧ on_double_click_path (path_of ["a"]) ("b" +:+ "/") = Some (path_of (["a"] ++ ["b"]))
  ∧ go_back_path (path_of (["a"] ++ ["b"])) = Some (path_of ["a"]).
Proof.
  assert (Forall component ["a"]) as Ha by (repeat constructor; done).
  assert (component "b") as Hb by (split; done).
  split; [exact Ha|]. split; [exact Hb|].
  exact (go_back_undoes_double_click ["a"] "b" Ha Hb).
Defined.

End FurtherRegistryCases.
